(** * PhotoCull: the interactive preview controller (src/components/MainPreview.tsx)

    A shallow embedding of the [MainPreview] component: the pointer, wheel
    and button handlers that drive zoom, pan and the crop rectangle; the
    crop commit that writes into the edit-state store; the debounced,
    sequence-numbered preview loader; and the compare-mode loader of the
    unedited image.

    Numbers.  A JavaScript number is modelled as an exact rational [Q]:
    no rounding, no NaN and no infinities.  Comparison, [Math.max],
    [Math.min], and the arithmetic of the handlers are the rational ones,
    and equalities between computed coordinates are stated with [==].
    [x / 0] is [0] in [Q]; the handlers only divide by an aspect ratio that
    passed the truthiness test, or by the on-screen size of the image.

    Events.  The component is single threaded: each handler runs to
    completion on the state of the latest render, so a handler is a function
    from state to state and a session is a fold over its events.  React runs
    the cleanup of the previous run of an effect before the next run.

    Time.  Time is counted in milliseconds ([Z]).  A timer set at [t] with
    delay [d] fires at [t + d] unless cleared; a promise settles when the
    trace says so.  An object URL is a fresh number, and the blobs still
    behind URLs form a finite map. *)

From Stdlib Require Import QArith Qminmax Lqa Lia ZArith List String Sorted.
From stdpp Require Import gmap strings.
Import ListNotations.
Local Open Scope Q_scope.

(** ** JavaScript numbers and [Math] *)

Module Math.
Definition max (a b : Q) : Q := Qmax a b.
Definition min (a b : Q) : Q := Qmin a b.
End Math.

(** [a < b], [a > b], [a <= b], [a >= b] and [a === b] on numbers. *)
Definition ltb (a b : Q) : bool := negb (Qle_bool b a).
Definition gtb (a b : Q) : bool := ltb b a.
Definition leb (a b : Q) : bool := Qle_bool a b.
Definition geb (a b : Q) : bool := Qle_bool b a.
Definition eqb (a b : Q) : bool := Qeq_bool a b.

(** Truthiness of a [number | null]: [null] and [0] are falsy. *)
Definition truthy (v : option Q) : bool :=
  match v with
  | Some r => negb (eqb r 0)
  | None => false
  end.

(** ** Types (src/types) *)

Inductive Flag := none | pick | reject.

(** An object literal whose properties are numbers, in source order. *)
Definition JsObject := list (string * Q).

Fixpoint prop (o : JsObject) (k : string) : option Q :=
  match o with
  | [] => None
  | (k', v) :: o' => if String.eqb k' k then Some v else prop o' k
  end.

(** Two object literals with the same property names, in the same order,
    and equal numbers. *)
Definition same_object (a b : JsObject) : Prop :=
  Forall2 (fun p q => fst p = fst q /\ snd p == snd q) a b.

(** [interface CropRect { top; left; bottom; right }]: the four properties an
    object must carry to inhabit the declared type of [EditState.crop]. *)
Definition CropRect_fields : list string :=
  ["top"; "left"; "bottom"; "right"]%string.

Record EditState := {
  rating : Q;
  flag : Flag;
  crop : option JsObject;
  straightenAngle : Q;
  rotation : Q;
  exposure : Q;
  contrast : Q;
  whiteBalanceTemp : Q;
  whiteBalanceTint : Q;
  saturation : Q;
  vibrance : Q;
  sharpeningAmount : Q;
  sharpeningRadius : Q
}.

Definition DEFAULT_EDIT_STATE : EditState := {|
  rating := 0;
  flag := none;
  crop := None;
  straightenAngle := 0;
  rotation := 0;
  exposure := 0;
  contrast := 0;
  whiteBalanceTemp := 5500;
  whiteBalanceTint := 0;
  saturation := 0;
  vibrance := 0;
  sharpeningAmount := 0;
  sharpeningRadius := 1.0
|}.

(** [{ ...e, crop: c }] *)
Definition with_crop (e : EditState) (c : option JsObject) : EditState := {|
  rating := rating e;
  flag := flag e;
  crop := c;
  straightenAngle := straightenAngle e;
  rotation := rotation e;
  exposure := exposure e;
  contrast := contrast e;
  whiteBalanceTemp := whiteBalanceTemp e;
  whiteBalanceTint := whiteBalanceTint e;
  saturation := saturation e;
  vibrance := vibrance e;
  sharpeningAmount := sharpeningAmount e;
  sharpeningRadius := sharpeningRadius e
|}.

(** ** Geometry *)

Record Point := { px : Q; py : Q }.

(** The crop rectangle in container coordinates. *)
Record Rect := { x : Q; y : Q; width : Q; height : Q }.

(** What [getBoundingClientRect()] returns. *)
Record DOMRect := { dleft : Q; dtop : Q; dwidth : Q; dheight : Q }.

(** The rendered [<img>]: its bounding box and natural pixel size. *)
Record ImageElement := {
  bounds : DOMRect;
  naturalWidth : Q;
  naturalHeight : Q
}.

Record MouseEvent := { clientX : Q; clientY : Q }.
Record WheelEvent := { deltaY : Q }.

Inductive CropDragMode :=
  | create | move | resize_nw | resize_ne | resize_sw | resize_se.

Definition startsWith_resize (m : CropDragMode) : bool :=
  match m with
  | resize_nw | resize_ne | resize_sw | resize_se => true
  | create | move => false
  end.

Definition ASPECT_RATIOS : list (string * option Q) :=
  [ ("Free", None);
    ("1:1", Some 1);
    ("4:3", Some (4/3));
    ("3:2", Some (3/2));
    ("16:9", Some (16/9));
    ("9:16", Some (9/16));
    ("3:4", Some (3/4));
    ("2:3", Some (2/3)) ]%string.

(** ** Zoom, pan and the crop tool *)

Module Viewport.

(** The component state the gesture handlers read and write, together
    with the two store fields they use ([cropMode], [editStates]). *)
Record State := {
  cropMode : bool;
  editStates : gmap string EditState;
  zoomLevel : Q;
  panOffset : Point;
  isPanning : bool;
  aspectRatio : option Q;
  cropRect : option Rect;
  isDraggingCrop : bool;
  cropStart : option Point;
  cropDragMode : option CropDragMode;
  cropDragOffset : Point;
  lastPanPos : Point
}.

Definition init : State := {|
  cropMode := false;
  editStates := ∅;
  zoomLevel := 1;
  panOffset := {| px := 0; py := 0 |};
  isPanning := false;
  aspectRatio := None;
  cropRect := None;
  isDraggingCrop := false;
  cropStart := None;
  cropDragMode := None;
  cropDragOffset := {| px := 0; py := 0 |};
  lastPanPos := {| px := 0; py := 0 |}
|}.

Definition setCropMode (b : bool) (s : State) : State :=
  {| cropMode := b; editStates := editStates s; zoomLevel := zoomLevel s;
     panOffset := panOffset s; isPanning := isPanning s;
     aspectRatio := aspectRatio s; cropRect := cropRect s;
     isDraggingCrop := isDraggingCrop s; cropStart := cropStart s;
     cropDragMode := cropDragMode s; cropDragOffset := cropDragOffset s;
     lastPanPos := lastPanPos s |}.

Definition setEditStates (m : gmap string EditState) (s : State) : State :=
  {| cropMode := cropMode s; editStates := m; zoomLevel := zoomLevel s;
     panOffset := panOffset s; isPanning := isPanning s;
     aspectRatio := aspectRatio s; cropRect := cropRect s;
     isDraggingCrop := isDraggingCrop s; cropStart := cropStart s;
     cropDragMode := cropDragMode s; cropDragOffset := cropDragOffset s;
     lastPanPos := lastPanPos s |}.

Definition setZoomLevel (z : Q) (s : State) : State :=
  {| cropMode := cropMode s; editStates := editStates s; zoomLevel := z;
     panOffset := panOffset s; isPanning := isPanning s;
     aspectRatio := aspectRatio s; cropRect := cropRect s;
     isDraggingCrop := isDraggingCrop s; cropStart := cropStart s;
     cropDragMode := cropDragMode s; cropDragOffset := cropDragOffset s;
     lastPanPos := lastPanPos s |}.

Definition setPanOffset (p : Point) (s : State) : State :=
  {| cropMode := cropMode s; editStates := editStates s;
     zoomLevel := zoomLevel s; panOffset := p; isPanning := isPanning s;
     aspectRatio := aspectRatio s; cropRect := cropRect s;
     isDraggingCrop := isDraggingCrop s; cropStart := cropStart s;
     cropDragMode := cropDragMode s; cropDragOffset := cropDragOffset s;
     lastPanPos := lastPanPos s |}.

Definition setIsPanning (b : bool) (s : State) : State :=
  {| cropMode := cropMode s; editStates := editStates s;
     zoomLevel := zoomLevel s; panOffset := panOffset s; isPanning := b;
     aspectRatio := aspectRatio s; cropRect := cropRect s;
     isDraggingCrop := isDraggingCrop s; cropStart := cropStart s;
     cropDragMode := cropDragMode s; cropDragOffset := cropDragOffset s;
     lastPanPos := lastPanPos s |}.

Definition setAspectRatio (a : option Q) (s : State) : State :=
  {| cropMode := cropMode s; editStates := editStates s;
     zoomLevel := zoomLevel s; panOffset := panOffset s;
     isPanning := isPanning s; aspectRatio := a; cropRect := cropRect s;
     isDraggingCrop := isDraggingCrop s; cropStart := cropStart s;
     cropDragMode := cropDragMode s; cropDragOffset := cropDragOffset s;
     lastPanPos := lastPanPos s |}.

Definition setCropRect (r : option Rect) (s : State) : State :=
  {| cropMode := cropMode s; editStates := editStates s;
     zoomLevel := zoomLevel s; panOffset := panOffset s;
     isPanning := isPanning s; aspectRatio := aspectRatio s; cropRect := r;
     isDraggingCrop := isDraggingCrop s; cropStart := cropStart s;
     cropDragMode := cropDragMode s; cropDragOffset := cropDragOffset s;
     lastPanPos := lastPanPos s |}.

Definition setIsDraggingCrop (b : bool) (s : State) : State :=
  {| cropMode := cropMode s; editStates := editStates s;
     zoomLevel := zoomLevel s; panOffset := panOffset s;
     isPanning := isPanning s; aspectRatio := aspectRatio s;
     cropRect := cropRect s; isDraggingCrop := b; cropStart := cropStart s;
     cropDragMode := cropDragMode s; cropDragOffset := cropDragOffset s;
     lastPanPos := lastPanPos s |}.

Definition setCropStart (p : option Point) (s : State) : State :=
  {| cropMode := cropMode s; editStates := editStates s;
     zoomLevel := zoomLevel s; panOffset := panOffset s;
     isPanning := isPanning s; aspectRatio := aspectRatio s;
     cropRect := cropRect s; isDraggingCrop := isDraggingCrop s;
     cropStart := p; cropDragMode := cropDragMode s;
     cropDragOffset := cropDragOffset s; lastPanPos := lastPanPos s |}.

Definition setCropDragMode (m : option CropDragMode) (s : State) : State :=
  {| cropMode := cropMode s; editStates := editStates s;
     zoomLevel := zoomLevel s; panOffset := panOffset s;
     isPanning := isPanning s; aspectRatio := aspectRatio s;
     cropRect := cropRect s; isDraggingCrop := isDraggingCrop s;
     cropStart := cropStart s; cropDragMode := m;
     cropDragOffset := cropDragOffset s; lastPanPos := lastPanPos s |}.

Definition setCropDragOffset (p : Point) (s : State) : State :=
  {| cropMode := cropMode s; editStates := editStates s;
     zoomLevel := zoomLevel s; panOffset := panOffset s;
     isPanning := isPanning s; aspectRatio := aspectRatio s;
     cropRect := cropRect s; isDraggingCrop := isDraggingCrop s;
     cropStart := cropStart s; cropDragMode := cropDragMode s;
     cropDragOffset := p; lastPanPos := lastPanPos s |}.

Definition setLastPanPos (p : Point) (s : State) : State :=
  {| cropMode := cropMode s; editStates := editStates s;
     zoomLevel := zoomLevel s; panOffset := panOffset s;
     isPanning := isPanning s; aspectRatio := aspectRatio s;
     cropRect := cropRect s; isDraggingCrop := isDraggingCrop s;
     cropStart := cropStart s; cropDragMode := cropDragMode s;
     cropDragOffset := cropDragOffset s; lastPanPos := p |}.

(** [updateEdit(fileId, { crop })] of the store:
    [editStates[fileId] = { ...(editStates[fileId] || DEFAULT_EDIT_STATE), crop }]. *)
Definition updateEdit_crop (fileId : string) (c : JsObject) (s : State) : State :=
  let old := default DEFAULT_EDIT_STATE (editStates s !! fileId) in
  setEditStates (<[fileId := with_crop old (Some c)]> (editStates s)) s.

(** *** Wheel and zoom buttons *)

Definition handleWheel (e : WheelEvent) (s : State) : State :=
  if cropMode s then s
  else
    let delta := if gtb (deltaY e) 0 then 0.9 else 1.1 in
    setZoomLevel (Math.max 0.5 (Math.min 5 (zoomLevel s * delta))) s.

(** The "Zoom Out" button. *)
Definition zoomOutClick (s : State) : State :=
  setZoomLevel (Math.max 0.5 (zoomLevel s - 0.25)) s.

(** The "Zoom In" button. *)
Definition zoomInClick (s : State) : State :=
  setZoomLevel (Math.min 5 (zoomLevel s + 0.25)) s.

Definition resetZoom (s : State) : State :=
  setPanOffset {| px := 0; py := 0 |} (setZoomLevel 1 s).

Definition handleDoubleClick (s : State) : State :=
  if negb (cropMode s) then
    if eqb (zoomLevel s) 1 then setZoomLevel 2 s
    else setPanOffset {| px := 0; py := 0 |} (setZoomLevel 1 s)
  else s.

(** *** Pointer down *)

(** The hit test of [handleMouseDown] on an existing crop box: corners
    first (within [handleSize] of two adjacent edges), then the body. *)
Definition hitTest (mouseX mouseY : Q) (r : Rect) : option CropDragMode :=
  let handleSize := 15 in
  let inLeft := geb mouseX (x r - handleSize) && leb mouseX (x r + handleSize) in
  let inRight := geb mouseX (x r + width r - handleSize)
                 && leb mouseX (x r + width r + handleSize) in
  let inTop := geb mouseY (y r - handleSize) && leb mouseY (y r + handleSize) in
  let inBottom := geb mouseY (y r + height r - handleSize)
                  && leb mouseY (y r + height r + handleSize) in
  let inBoxX := geb mouseX (x r) && leb mouseX (x r + width r) in
  let inBoxY := geb mouseY (y r) && leb mouseY (y r + height r) in
  if inLeft && inTop then Some resize_nw
  else if inRight && inTop then Some resize_ne
  else if inLeft && inBottom then Some resize_sw
  else if inRight && inBottom then Some resize_se
  else if inBoxX && inBoxY then Some move
  else None.

Definition handleMouseDown (container : option DOMRect) (e : MouseEvent)
    (s : State) : State :=
  if cropMode s then
    match container with
    | None => s
    | Some rect =>
      let mouseX := clientX e - dleft rect in
      let mouseY := clientY e - dtop rect in
      let hit :=
        match cropRect s with
        | Some r =>
          if gtb (width r) 0 && gtb (height r) 0
          then hitTest mouseX mouseY r else None
        | None => None
        end in
      match hit, cropRect s with
      | Some move, Some r =>
        setIsDraggingCrop true
          (setCropDragOffset {| px := mouseX - x r; py := mouseY - y r |}
            (setCropDragMode (Some move) s))
      | Some m, _ =>
        setIsDraggingCrop true (setCropDragMode (Some m) s)
      | None, _ =>
        setCropRect (Some {| x := mouseX; y := mouseY; width := 0; height := 0 |})
          (setIsDraggingCrop true
            (setCropDragMode (Some create)
              (setCropStart (Some {| px := mouseX; py := mouseY |}) s)))
      end
    end
  else if gtb (zoomLevel s) 1 then
    setLastPanPos {| px := clientX e; py := clientY e |} (setIsPanning true s)
  else s.

(** *** Pointer move *)

(** The [create] branch: the rectangle from the anchor to the pointer,
    flipped to non-negative extents, height overridden by a locked ratio. *)
Definition createRect (start : Point) (mouseX mouseY : Q)
    (ratio : option Q) : Rect :=
  let x0 := px start in
  let y0 := py start in
  let w0 := mouseX - px start in
  let h0 := mouseY - py start in
  let '(x1, w1) := if ltb w0 0 then (x0 + w0, - w0) else (x0, w0) in
  let '(y1, h1) := if ltb h0 0 then (y0 + h0, - h0) else (y0, h0) in
  let h2 := match ratio with
            | Some a => if truthy ratio then w1 / a else h1
            | None => h1
            end in
  {| x := x1; y := y1; width := w1; height := h2 |}.

(** The [move] branch. *)
Definition moveRect (rect : DOMRect) (r : Rect) (off : Point)
    (mouseX mouseY : Q) : Rect :=
  let newX := Math.max 0 (Math.min (dwidth rect - width r) (mouseX - px off)) in
  let newY := Math.max 0 (Math.min (dheight rect - height r) (mouseY - py off)) in
  {| x := newX; y := newY; width := width r; height := height r |}.

(** [aspectRatio ? w / aspectRatio : free] *)
Definition lockedOr (ratio : option Q) (w free : Q) : Q :=
  match ratio with
  | Some a => if truthy ratio then w / a else free
  | None => free
  end.

(** The [resize-*] branches. *)
Definition resizeRect (m : CropDragMode) (r : Rect) (ratio : option Q)
    (mouseX mouseY : Q) : Rect :=
  match m with
  | resize_se =>
    let w := Math.max 20 (mouseX - x r) in
    let h := lockedOr ratio w (Math.max 20 (mouseY - y r)) in
    {| x := x r; y := y r; width := w; height := h |}
  | resize_sw =>
    let newWidth := Math.max 20 (x r + width r - mouseX) in
    let h := lockedOr ratio newWidth (Math.max 20 (mouseY - y r)) in
    {| x := x r + width r - newWidth; y := y r; width := newWidth; height := h |}
  | resize_ne =>
    let w := Math.max 20 (mouseX - x r) in
    let newHeight := lockedOr ratio w (Math.max 20 (y r + height r - mouseY)) in
    {| x := x r; y := y r + height r - newHeight; width := w; height := newHeight |}
  | resize_nw =>
    let newWidth := Math.max 20 (x r + width r - mouseX) in
    let newHeight :=
      lockedOr ratio newWidth (Math.max 20 (y r + height r - mouseY)) in
    {| x := x r + width r - newWidth; y := y r + height r - newHeight;
       width := newWidth; height := newHeight |}
  | create | move => r
  end.

Definition handleMouseMove (container : option DOMRect) (e : MouseEvent)
    (s : State) : State :=
  if isDraggingCrop s && cropMode s then
    match container with
    | None => s
    | Some rect =>
      let mouseX := clientX e - dleft rect in
      let mouseY := clientY e - dtop rect in
      match cropDragMode s, cropStart s, cropRect s with
      | Some create, Some start, _ =>
        setCropRect (Some (createRect start mouseX mouseY (aspectRatio s))) s
      | Some move, _, Some r =>
        setCropRect (Some (moveRect rect r (cropDragOffset s) mouseX mouseY)) s
      | Some m, _, Some r =>
        if startsWith_resize m then
          setCropRect (Some (resizeRect m r (aspectRatio s) mouseX mouseY)) s
        else s
      | _, _, _ => s
      end
    end
  else if isPanning s then
    let dx := clientX e - px (lastPanPos s) in
    let dy := clientY e - py (lastPanPos s) in
    setPanOffset {| px := px (panOffset s) + dx; py := py (panOffset s) + dy |}
      (setLastPanPos {| px := clientX e; py := clientY e |} s)
  else s.

(** *** Pointer up (also bound to pointer leave) *)

Definition handleMouseUp (s : State) : State :=
  let s1 := setIsPanning false s in
  let keep :=
    isDraggingCrop s &&
    match cropRect s with
    | Some r => gtb (width r) 10 && gtb (height r) 10
    | None => false
    end in
  let s2 :=
    if keep then s1
    else match cropDragMode s with
         | Some create => setCropRect None s1
         | _ => s1
         end in
  setCropDragMode None (setCropStart None (setIsDraggingCrop false s2)).

(** *** Commit and cancel *)

(** The object literal [applyCrop] passes to [updateEdit] as [crop]. *)
Definition cropLiteral (r : Rect) (img : ImageElement) (containerRect : DOMRect)
    : JsObject :=
  let imgRect := bounds img in
  let imgOffsetX := dleft imgRect - dleft containerRect in
  let imgOffsetY := dtop imgRect - dtop containerRect in
  let scaleX := naturalWidth img / dwidth imgRect in
  let scaleY := naturalHeight img / dheight imgRect in
  let cropX := Math.max 0 ((x r - imgOffsetX) * scaleX) in
  let cropY := Math.max 0 ((y r - imgOffsetY) * scaleY) in
  let cropW := width r * scaleX in
  let cropH := height r * scaleY in
  [ ("x", cropX); ("y", cropY); ("width", cropW); ("height", cropH) ]%string.

Definition applyCrop (img : option ImageElement) (container : option DOMRect)
    (file : option string) (s : State) : State :=
  match cropRect s, img, container, file with
  | Some r, Some im, Some containerRect, Some fileId =>
    setCropMode false
      (setCropRect None
        (updateEdit_crop fileId (cropLiteral r im containerRect) s))
  | _, _, _, _ => s
  end.

Definition cancelCrop (s : State) : State :=
  setCropMode false (setCropRect None s).

(** *** Events *)

Inductive Event :=
  | Wheel (e : WheelEvent)
  | MouseDown (container : option DOMRect) (e : MouseEvent)
  | MouseMove (container : option DOMRect) (e : MouseEvent)
  | MouseUp
  | MouseLeave
  | DoubleClick
  | ZoomOutButton
  | ZoomInButton
  | FitButton
  | AspectButton (a : option Q)
  | ApplyButton (img : option ImageElement) (container : option DOMRect)
      (file : option string)
  | CancelButton
  | CropToggle.

Definition step (s : State) (ev : Event) : State :=
  match ev with
  | Wheel e => handleWheel e s
  | MouseDown c e => handleMouseDown c e s
  | MouseMove c e => handleMouseMove c e s
  | MouseUp | MouseLeave => handleMouseUp s
  | DoubleClick => handleDoubleClick s
  | ZoomOutButton => zoomOutClick s
  | ZoomInButton => zoomInClick s
  | FitButton => resetZoom s
  | AspectButton a => if cropMode s then setAspectRatio a s else s
  | ApplyButton img c f => if cropMode s then applyCrop img c f s else s
  | CancelButton => if cropMode s then cancelCrop s else s
  | CropToggle => setCropMode (negb (cropMode s)) s
  end.

Definition run (s : State) (evs : list Event) : State := fold_left step evs s.

(** The pointer moves of a drag, each seen with the container mounted. *)
Definition moves (path : list (DOMRect * MouseEvent)) : list Event :=
  map (fun p => MouseMove (Some (fst p)) (snd p)) path.

End Viewport.

(** ** Object URLs and settled promises *)

(** [URL.createObjectURL] hands out a fresh URL each call; the browser keeps
    the blob behind it until [URL.revokeObjectURL]. *)
Definition Url := nat.
Definition Bytes := list Z.

(** How a [getPreview] promise settles. *)
Inductive Outcome :=
  | Resolved (bytes : Bytes)
  | Rejected (err : string).

(** What the centre of the component renders in place of the image. *)
Inductive Shown :=
  | Image (src : Url)
  | LoadingText.

(** ** The edited ("after") preview loader *)

Module Preview.

(** [setTimeout(loadPreview, 150)] *)
Definition debounceDelay : Z := 150.

(** The variables one run of the effect closes over. *)
Record Closure := {
  currentRequestId : nat;
  cancelled : bool;
  fileId : string;
  edits : EditState;
  capturedPreviewUrl : option Url
}.

(** One call [getPreview(file.id, edits, 1600)], stamped with the time of
    the call. *)
Record Request := {
  sentAt : Z;
  reqId : nat;
  reqFile : string;
  reqEdits : EditState;
  maxSize : Z
}.

Record State := {
  requestIdRef : nat;
  previewUrl : option Url;           (* store *)
  error : option string;             (* store: the banner [App] renders *)
  localLoading : bool;
  timer : option (Z * Closure);      (* the armed [setTimeout]: due time, callback *)
  cleanup : option nat;              (* the cleanup React holds, by request id *)
  awaiting : list Closure;           (* [loadPreview] calls suspended on [getPreview] *)
  blobs : gmap Url Bytes;            (* object URLs not yet revoked *)
  nextUrl : Url;
  requests : list Request;           (* calls to [getPreview], latest first *)
  console : list string              (* [console.error] lines, latest first *)
}.

Definition init : State := {|
  requestIdRef := 0%nat;
  previewUrl := None;
  error := None;
  localLoading := false;
  timer := None;
  cleanup := None;
  awaiting := [];
  blobs := ∅;
  nextUrl := 0%nat;
  requests := [];
  console := []
|}.

Definition cancel (c : Closure) : Closure := {|
  currentRequestId := currentRequestId c;
  cancelled := true;
  fileId := fileId c;
  edits := edits c;
  capturedPreviewUrl := capturedPreviewUrl c
|}.

(** The cleanup returned by the effect: [cancelled = true; clearTimeout(debounce)]. *)
Definition runCleanup (s : State) : State :=
  match cleanup s with
  | None => s
  | Some id =>
    {| requestIdRef := requestIdRef s;
       previewUrl := previewUrl s;
       error := error s;
       localLoading := localLoading s;
       timer := match timer s with
                | Some (due, c) =>
                  if Nat.eqb (currentRequestId c) id then None else Some (due, c)
                | None => None
                end;
       cleanup := None;
       awaiting := map (fun c => if Nat.eqb (currentRequestId c) id
                                 then cancel c else c) (awaiting s);
       blobs := blobs s;
       nextUrl := nextUrl s;
       requests := requests s;
       console := console s |}
  end.

(** One run of the effect at time [now], after React ran the cleanup of
    the previous run. *)
Definition effectBody (now : Z) (file : option string) (e : EditState)
    (s : State) : State :=
  match file with
  | None =>
    {| requestIdRef := requestIdRef s;
       previewUrl := None;
       error := error s;
       localLoading := localLoading s;
       timer := timer s;
       cleanup := None;
       awaiting := awaiting s;
       blobs := blobs s;
       nextUrl := nextUrl s;
       requests := requests s;
       console := console s |}
  | Some f =>
    let id := S (requestIdRef s) in
    let c := {| currentRequestId := id; cancelled := false; fileId := f;
                edits := e; capturedPreviewUrl := previewUrl s |} in
    {| requestIdRef := id;
       previewUrl := previewUrl s;
       error := error s;
       localLoading := localLoading s;
       timer := Some ((now + debounceDelay)%Z, c);
       cleanup := Some id;
       awaiting := awaiting s;
       blobs := blobs s;
       nextUrl := nextUrl s;
       requests := requests s;
       console := console s |}
  end.

Definition effectRun (now : Z) (file : option string) (e : EditState)
    (s : State) : State :=
  effectBody now file e (runCleanup s).

(** The timer callback up to its [await]: [setLocalLoading(true)] and the
    call to [getPreview]. *)
Definition loadPreview_start (now : Z) (c : Closure) (s : State) : State :=
  {| requestIdRef := requestIdRef s;
     previewUrl := previewUrl s;
     error := error s;
     localLoading := true;
     timer := None;
     cleanup := cleanup s;
     awaiting := c :: awaiting s;
     blobs := blobs s;
     nextUrl := nextUrl s;
     requests := {| sentAt := now; reqId := currentRequestId c;
                    reqFile := fileId c; reqEdits := edits c;
                    maxSize := 1600%Z |} :: requests s;
     console := console s |}.

(** The guard [cancelled || currentRequestId !== requestIdRef.current],
    negated: the continuation may touch the display. *)
Definition current (c : Closure) (s : State) : bool :=
  negb (cancelled c) && Nat.eqb (currentRequestId c) (requestIdRef s).

(** The rest of [loadPreview] once the promise of closure [c] settles. *)
Definition loadPreview_resume (c : Closure) (o : Outcome) (s : State) : State :=
  match o with
  | Resolved bytes =>
    if current c s then
      let url := nextUrl s in
      let live := <[url := bytes]> (blobs s) in
      {| requestIdRef := requestIdRef s;
         previewUrl := Some url;
         error := error s;
         localLoading := false;
         timer := timer s;
         cleanup := cleanup s;
         awaiting := awaiting s;
         blobs := match capturedPreviewUrl c with
                  | Some old => delete old live
                  | None => live
                  end;
         nextUrl := S url;
         requests := requests s;
         console := console s |}
    else s
  | Rejected err =>
    if current c s then
      {| requestIdRef := requestIdRef s;
         previewUrl := None;
         error := error s;
         localLoading := false;
         timer := timer s;
         cleanup := cleanup s;
         awaiting := awaiting s;
         blobs := blobs s;
         nextUrl := nextUrl s;
         requests := requests s;
         console := "Preview failed:"%string :: console s |}
    else s
  end.

Definition is_closure (id : nat) (c : Closure) : bool :=
  Nat.eqb (currentRequestId c) id.

Definition dropAwaiting (id : nat) (s : State) : State :=
  {| requestIdRef := requestIdRef s;
     previewUrl := previewUrl s;
     error := error s;
     localLoading := localLoading s;
     timer := timer s;
     cleanup := cleanup s;
     awaiting := List.filter (fun c => negb (is_closure id c)) (awaiting s);
     blobs := blobs s;
     nextUrl := nextUrl s;
     requests := requests s;
     console := console s |}.

(** The promise of request [id] settles: the suspended call, if there is
    one, leaves [awaiting] and resumes. *)
Definition settle (id : nat) (o : Outcome) (s : State) : State :=
  match find (is_closure id) (awaiting s) with
  | Some c => loadPreview_resume c o (dropAwaiting id s)
  | None => s
  end.

(** [setSelectedIndex] of the store: [set({ selectedIndex, previewUrl: null })]. *)
Definition setSelectedIndex (s : State) : State :=
  {| requestIdRef := requestIdRef s;
     previewUrl := None;
     error := error s;
     localLoading := localLoading s;
     timer := timer s;
     cleanup := cleanup s;
     awaiting := awaiting s;
     blobs := blobs s;
     nextUrl := nextUrl s;
     requests := requests s;
     console := console s |}.

Inductive Event :=
  | Change (file : option string) (e : EditState)   (* a dependency changed *)
  | Settle (id : nat) (o : Outcome)                 (* a promise settled *)
  | SelectIndex.                                    (* the store action *)

(** Time passes up to [now]: a timer that is due fires at its due time. *)
Definition advance (now : Z) (s : State) : State :=
  match timer s with
  | Some (due, c) => if (due <=? now)%Z then loadPreview_start due c s else s
  | None => s
  end.

Definition handle (now : Z) (ev : Event) (s : State) : State :=
  match ev with
  | Change file e => effectRun now file e s
  | Settle id o => settle id o s
  | SelectIndex => setSelectedIndex s
  end.

Definition step (s : State) (tev : Z * Event) : State :=
  handle (fst tev) (snd tev) (advance (fst tev) s).

Definition run (s : State) (tevs : list (Z * Event)) : State :=
  fold_left step tevs s.

(** What the image slot shows. *)
Definition shown (s : State) : Shown :=
  match previewUrl s with
  | Some u => Image u
  | None => LoadingText
  end.

(** The response an event delivers past the guard, if it does. *)
Definition accepted (s : State) (ev : Event) : option (nat * Outcome) :=
  match ev with
  | Settle id o =>
    match find (is_closure id) (awaiting s) with
    | Some c => if current c (dropAwaiting id s) then Some (id, o) else None
    | None => None
    end
  | Change _ _ | SelectIndex => None
  end.

(** The responses accepted along a run, latest first. *)
Fixpoint acceptedLog (s : State) (tevs : list (Z * Event))
    (acc : list (nat * Outcome)) : list (nat * Outcome) :=
  match tevs with
  | [] => acc
  | tev :: rest =>
    let s1 := advance (fst tev) s in
    let acc' := match accepted s1 (snd tev) with
                | Some r => r :: acc
                | None => acc
                end in
    acceptedLog (step s tev) rest acc'
  end.

(** The entry with the highest sequence number (the later one on a tie). *)
Fixpoint highest (log : list (nat * Outcome)) : option (nat * Outcome) :=
  match log with
  | [] => None
  | r :: rest =>
    match highest rest with
    | Some r' => if Nat.ltb (fst r) (fst r') then Some r' else Some r
    | None => Some r
    end
  end.

(** The displayed resource is the one made from the bytes of response [r]. *)
Definition displays (s : State) (r : nat * Outcome) : Prop :=
  match snd r with
  | Resolved bytes => exists u, previewUrl s = Some u /\ blobs s !! u = Some bytes
  | Rejected _ => previewUrl s = None
  end.

(** One file-selection context: every [Change] of the trace has file [f]
    selected, and the selection is never moved. *)
Definition sameFile (f : string) (tevs : list (Z * Event)) : Prop :=
  Forall (fun tev => match snd tev with
                     | Change file _ => file = Some f
                     | Settle _ _ => True
                     | SelectIndex => False
                     end) tevs.

(** A burst: every event comes sooner than [debounceDelay] after the
    change before it, starting from a change at time [last]. *)
Fixpoint burst (last : Z) (tevs : list (Z * Event)) : Prop :=
  match tevs with
  | [] => True
  | (t, ev) :: rest =>
    (last <= t < last + debounceDelay)%Z /\
    burst (match ev with Change _ _ => t | _ => last end) rest
  end.

(** The last change of a burst that opened with [(t, file, e)]. *)
Fixpoint lastChange (t : Z) (file : option string) (e : EditState)
    (tevs : list (Z * Event)) : Z * option string * EditState :=
  match tevs with
  | [] => (t, file, e)
  | (t', Change file' e') :: rest => lastChange t' file' e' rest
  | _ :: rest => lastChange t file e rest
  end.

(** The request the debounce timer of a change [(t, Some f, e)] sends when
    it fires, in a state whose latest sequence number is [id]. *)
Definition requestOf (t : Z) (id : nat) (f : string) (e : EditState) : Request :=
  {| sentAt := (t + debounceDelay)%Z; reqId := id; reqFile := f;
     reqEdits := e; maxSize := 1600%Z |}.

(** *** Invariants of the reachable states *)

Definition ids (l : list Closure) : list nat := map currentRequestId l.

Definition armed (s : State) (c : Closure) : Prop :=
  exists due, timer s = Some (due, c).

Record wf (s : State) : Prop := {
  wf_awaiting_le :
    forall c, In c (awaiting s) -> (currentRequestId c <= requestIdRef s)%nat;
  wf_awaiting_nodup : List.NoDup (ids (awaiting s));
  wf_timer_latest :
    forall c, armed s c ->
      currentRequestId c = requestIdRef s /\
      ~ In (currentRequestId c) (ids (awaiting s));
  wf_timer_cleanup :
    forall c, armed s c -> cleanup s = Some (currentRequestId c);
  wf_shown_fresh :
    forall u, previewUrl s = Some u -> (u < nextUrl s)%nat;
  wf_captured_fresh :
    forall c u, In c (awaiting s) \/ armed s c ->
      capturedPreviewUrl c = Some u -> (u < nextUrl s)%nat
}.

(** The accepted responses [log] (latest first) against the state: each
    belongs to a request that is neither suspended nor armed any more, and
    each was accepted with a higher number than those before it. *)
Record logged (s : State) (log : list (nat * Outcome)) : Prop := {
  logged_le : forall r, In r log -> (fst r <= requestIdRef s)%nat;
  logged_done : forall r, In r log -> ~ In (fst r) (ids (awaiting s));
  logged_fired : forall r c, In r log -> armed s c -> currentRequestId c <> fst r;
  logged_sorted : StronglySorted (fun a b => (fst b < fst a)%nat) log
}.

(** What the slot shows, given the accepted responses (latest first) and
    what it showed before any was accepted. *)
Definition showsLatest (before : option Url) (s : State)
    (log : list (nat * Outcome)) : Prop :=
  match log with
  | [] => previewUrl s = before
  | r :: _ => displays s r
  end.

(** The state between the changes of a burst: the timer of the last change
    [(last, file, e)] is the only thing armed. *)
Definition debouncing (last : Z) (file : option string) (e : EditState)
    (s : State) : Prop :=
  match file with
  | Some f =>
    exists c, timer s = Some ((last + debounceDelay)%Z, c) /\
              currentRequestId c = requestIdRef s /\
              fileId c = f /\ edits c = e /\
              cleanup s = Some (currentRequestId c)
  | None => timer s = None
  end.

End Preview.

(** ** The unedited ("before") preview loader of compare mode *)

Module Compare.

Inductive CompareMode := off | split | toggle.

(** The compare button: [m === 'off' ? 'split' : m === 'split' ? 'toggle' : 'off'] *)
Definition cycle (m : CompareMode) : CompareMode :=
  match m with
  | off => split
  | split => toggle
  | toggle => off
  end.

(** The variables one call of [loadBefore] closes over; [handle] names
    its promise. *)
Record Closure := {
  handle : nat;
  cancelled : bool;
  fileId : string;
  capturedBeforeUrl : option Url
}.

(** One call [getPreview(file.id, DEFAULT_EDIT_STATE, 1600)]. *)
Record Request := {
  reqFile : string;
  reqEdits : EditState;
  maxSize : Z
}.

Record State := {
  file : option string;              (* [file?.id] of the selected file *)
  compareMode : CompareMode;
  beforeUrl : option Url;
  cleanup : option nat;              (* the cleanup React holds, by promise *)
  awaiting : list Closure;           (* [loadBefore] calls suspended on [getPreview] *)
  blobs : gmap Url Bytes;            (* object URLs not yet revoked *)
  nextUrl : Url;
  requests : list Request;           (* calls to [getPreview], latest first *)
  console : list string
}.

(** The component as mounted with [f] selected. *)
Definition init (f : option string) : State := {|
  file := f;
  compareMode := off;
  beforeUrl := None;
  cleanup := None;
  awaiting := [];
  blobs := ∅;
  nextUrl := 0%nat;
  requests := [];
  console := []
|}.

Definition cancel (c : Closure) : Closure := {|
  handle := handle c;
  cancelled := true;
  fileId := fileId c;
  capturedBeforeUrl := capturedBeforeUrl c
|}.

(** The cleanup returned by the effect: [cancelled = true]. *)
Definition runCleanup (s : State) : State :=
  match cleanup s with
  | None => s
  | Some h =>
    {| file := file s;
       compareMode := compareMode s;
       beforeUrl := beforeUrl s;
       cleanup := None;
       awaiting := map (fun c => if Nat.eqb (handle c) h then cancel c else c)
                       (awaiting s);
       blobs := blobs s;
       nextUrl := nextUrl s;
       requests := requests s;
       console := console s |}
  end.

(** One run of the effect, after the cleanup of the previous run. *)
Definition effectBody (s : State) : State :=
  match file s, compareMode s with
  | Some f, (split | toggle) =>
    let h := length (requests s) in
    let c := {| handle := h; cancelled := false; fileId := f;
                capturedBeforeUrl := beforeUrl s |} in
    {| file := file s;
       compareMode := compareMode s;
       beforeUrl := beforeUrl s;
       cleanup := Some h;
       awaiting := c :: awaiting s;
       blobs := blobs s;
       nextUrl := nextUrl s;
       requests := {| reqFile := f; reqEdits := DEFAULT_EDIT_STATE;
                      maxSize := 1600%Z |} :: requests s;
       console := console s |}
  | _, _ =>
    match beforeUrl s with
    | Some u =>
      {| file := file s;
         compareMode := compareMode s;
         beforeUrl := None;
         cleanup := None;
         awaiting := awaiting s;
         blobs := delete u (blobs s);
         nextUrl := nextUrl s;
         requests := requests s;
         console := console s |}
    | None => s
    end
  end.

Definition effectRun (s : State) : State := effectBody (runCleanup s).

Definition setCompareMode (m : CompareMode) (s : State) : State :=
  {| file := file s;
     compareMode := m;
     beforeUrl := beforeUrl s;
     cleanup := cleanup s;
     awaiting := awaiting s;
     blobs := blobs s;
     nextUrl := nextUrl s;
     requests := requests s;
     console := console s |}.

Definition setFile (f : option string) (s : State) : State :=
  {| file := f;
     compareMode := compareMode s;
     beforeUrl := beforeUrl s;
     cleanup := cleanup s;
     awaiting := awaiting s;
     blobs := blobs s;
     nextUrl := nextUrl s;
     requests := requests s;
     console := console s |}.

(** The rest of [loadBefore] once its promise settles. *)
Definition loadBefore_resume (c : Closure) (o : Outcome) (s : State) : State :=
  match o with
  | Resolved bytes =>
    if cancelled c then s
    else
      let url := nextUrl s in
      let live := <[url := bytes]> (blobs s) in
      {| file := file s;
         compareMode := compareMode s;
         beforeUrl := Some url;
         cleanup := cleanup s;
         awaiting := awaiting s;
         blobs := match capturedBeforeUrl c with
                  | Some old => delete old live
                  | None => live
                  end;
         nextUrl := S url;
         requests := requests s;
         console := console s |}
  | Rejected err =>
    {| file := file s;
       compareMode := compareMode s;
       beforeUrl := beforeUrl s;
       cleanup := cleanup s;
       awaiting := awaiting s;
       blobs := blobs s;
       nextUrl := nextUrl s;
       requests := requests s;
       console := "Before preview failed:"%string :: console s |}
  end.

Definition is_closure (h : nat) (c : Closure) : bool := Nat.eqb (handle c) h.

Definition dropAwaiting (h : nat) (s : State) : State :=
  {| file := file s;
     compareMode := compareMode s;
     beforeUrl := beforeUrl s;
     cleanup := cleanup s;
     awaiting := List.filter (fun c => negb (is_closure h c)) (awaiting s);
     blobs := blobs s;
     nextUrl := nextUrl s;
     requests := requests s;
     console := console s |}.

Definition settle (h : nat) (o : Outcome) (s : State) : State :=
  match find (is_closure h) (awaiting s) with
  | Some c => loadBefore_resume c o (dropAwaiting h s)
  | None => s
  end.

Definition same_file (a b : option string) : bool :=
  match a, b with
  | Some f, Some g => String.eqb f g
  | None, None => true
  | _, _ => false
  end.

Inductive Event :=
  | CompareButton
  | SelectFile (f : option string)
  | Settle (h : nat) (o : Outcome).

(** The effect has dependencies [file?.id, compareMode]: it runs again
    after a render in which one of them changed. *)
Definition step (s : State) (ev : Event) : State :=
  match ev with
  | CompareButton => effectRun (setCompareMode (cycle (compareMode s)) s)
  | SelectFile f => if same_file f (file s) then s else effectRun (setFile f s)
  | Settle h o => settle h o s
  end.

Definition run (s : State) (evs : list Event) : State := fold_left step evs s.

(** The trace never changes the selected file. *)
Definition noFileChange (evs : list Event) : Prop :=
  Forall (fun ev => match ev with SelectFile _ => False | _ => True end) evs.

End Compare.

(** ** The split divider, the hold key and the choice of view *)

Module CompareView.

Record KeyboardEvent := { code : string; isRepeat : bool (* [e.repeat] *) }.

(** The compare state the divider and key handlers read and write. *)
Record State := {
  compareMode : Compare.CompareMode;
  splitPosition : Q;
  isDraggingSplit : bool;
  showBefore : bool
}.

Definition init : State := {|
  compareMode := Compare.off;
  splitPosition := 50;
  isDraggingSplit := false;
  showBefore := false
|}.

Definition setCompareMode (m : Compare.CompareMode) (s : State) : State :=
  {| compareMode := m; splitPosition := splitPosition s;
     isDraggingSplit := isDraggingSplit s; showBefore := showBefore s |}.

Definition setSplitPosition (p : Q) (s : State) : State :=
  {| compareMode := compareMode s; splitPosition := p;
     isDraggingSplit := isDraggingSplit s; showBefore := showBefore s |}.

Definition setIsDraggingSplit (b : bool) (s : State) : State :=
  {| compareMode := compareMode s; splitPosition := splitPosition s;
     isDraggingSplit := b; showBefore := showBefore s |}.

Definition setShowBefore (b : bool) (s : State) : State :=
  {| compareMode := compareMode s; splitPosition := splitPosition s;
     isDraggingSplit := isDraggingSplit s; showBefore := b |}.

Definition handleSplitMouseDown (s : State) : State := setIsDraggingSplit true s.

Definition handleSplitMouseMove (container : option DOMRect) (e : MouseEvent)
    (s : State) : State :=
  match container with
  | Some rect =>
    if negb (isDraggingSplit s) then s
    else
      let x := clientX e - dleft rect in
      let percent := (x / dwidth rect) * 100 in
      setSplitPosition (Math.max 5 (Math.min 95 percent)) s
  | None => s
  end.

Definition handleSplitMouseUp (s : State) : State := setIsDraggingSplit false s.

(** The window listeners exist only while [compareMode === 'toggle']. *)
Definition listening (s : State) : bool :=
  match compareMode s with
  | Compare.toggle => true
  | _ => false
  end.

Definition handleKeyDown (e : KeyboardEvent) (s : State) : State :=
  if listening s then
    if String.eqb (code e) "Space" && negb (isRepeat e) then setShowBefore true s
    else s
  else s.

Definition handleKeyUp (e : KeyboardEvent) (s : State) : State :=
  if listening s then
    if String.eqb (code e) "Space" then setShowBefore false s else s
  else s.

(** A fresh press, or the release, of the space bar. *)
Definition space : KeyboardEvent := {| code := "Space"; isRepeat := false |}.

(** The branch of the render that fills the image area. *)
Inductive View :=
  | BeforeOnly (before : Url)
  | SplitView (after before : Url) (position : Q)
  | AfterOnly (after : Url)
  | Placeholder.

Definition view (beforeUrl previewUrl : option Url) (s : State) : View :=
  match compareMode s, showBefore s, beforeUrl, previewUrl with
  | Compare.toggle, true, Some b, _ => BeforeOnly b
  | Compare.split, _, Some b, Some a => SplitView a b (splitPosition s)
  | _, _, _, Some a => AfterOnly a
  | _, _, _, None => Placeholder
  end.

Inductive Event :=
  | CompareButton
  | DividerMouseDown                     (* on the divider of the split view *)
  | MouseMove (container : option DOMRect) (e : MouseEvent)
  | MouseUp
  | MouseLeave
  | KeyDown (e : KeyboardEvent)
  | KeyUp (e : KeyboardEvent).

(** The divider is rendered in the split view only. *)
Definition step (s : State) (ev : Event) : State :=
  match ev with
  | CompareButton => setCompareMode (Compare.cycle (compareMode s)) s
  | DividerMouseDown =>
    match compareMode s with
    | Compare.split => handleSplitMouseDown s
    | _ => s
    end
  | MouseMove c e => handleSplitMouseMove c e s
  | MouseUp | MouseLeave => handleSplitMouseUp s
  | KeyDown e => handleKeyDown e s
  | KeyUp e => handleKeyUp e s
  end.

Definition run (s : State) (evs : list Event) : State := fold_left step evs s.

(** Every pointer move of the trace sees a container of positive width. *)
Definition laidOut (evs : list Event) : Prop :=
  Forall (fun ev => match ev with
                    | MouseMove (Some rect) _ => 0 < dwidth rect
                    | _ => True
                    end) evs.

End CompareView.

(** ** The store (src/store) *)

Module ImageFile.
Record t := {
  id : string;
  path : string;
  filename : string;
  extension : string;
  fileSize : Q;
  modifiedAt : string;
  isRaw : bool;
  dimensions : option (Q * Q)
}.
End ImageFile.

(** [Partial<EditState>]: the properties an update carries. *)
Module Partial.
Record t := {
  rating : option Q;
  flag : option Flag;
  crop : option (option JsObject);
  straightenAngle : option Q;
  rotation : option Q;
  exposure : option Q;
  contrast : option Q;
  whiteBalanceTemp : option Q;
  whiteBalanceTint : option Q;
  saturation : option Q;
  vibrance : option Q;
  sharpeningAmount : option Q;
  sharpeningRadius : option Q
}.

(** [{}] *)
Definition empty : t := {|
  rating := None; flag := None; crop := None; straightenAngle := None;
  rotation := None; exposure := None; contrast := None;
  whiteBalanceTemp := None; whiteBalanceTint := None; saturation := None;
  vibrance := None; sharpeningAmount := None; sharpeningRadius := None
|}.

(** [{ rating: r }], [{ flag: f }], [{ rotation: r }], [{ crop: c }] *)
Definition ofRating (r : Q) : t := {|
  rating := Some r; flag := None; crop := None; straightenAngle := None;
  rotation := None; exposure := None; contrast := None;
  whiteBalanceTemp := None; whiteBalanceTint := None; saturation := None;
  vibrance := None; sharpeningAmount := None; sharpeningRadius := None
|}.

Definition ofFlag (f : Flag) : t := {|
  rating := None; flag := Some f; crop := None; straightenAngle := None;
  rotation := None; exposure := None; contrast := None;
  whiteBalanceTemp := None; whiteBalanceTint := None; saturation := None;
  vibrance := None; sharpeningAmount := None; sharpeningRadius := None
|}.

Definition ofRotation (r : Q) : t := {|
  rating := None; flag := None; crop := None; straightenAngle := None;
  rotation := Some r; exposure := None; contrast := None;
  whiteBalanceTemp := None; whiteBalanceTint := None; saturation := None;
  vibrance := None; sharpeningAmount := None; sharpeningRadius := None
|}.

Definition ofCrop (c : option JsObject) : t := {|
  rating := None; flag := None; crop := Some c; straightenAngle := None;
  rotation := None; exposure := None; contrast := None;
  whiteBalanceTemp := None; whiteBalanceTint := None; saturation := None;
  vibrance := None; sharpeningAmount := None; sharpeningRadius := None
|}.

(** [{ ...u, ...v }] on two updates. *)
Definition over {A} (a b : option A) : option A :=
  match b with
  | Some _ => b
  | None => a
  end.

Definition spread (u v : t) : t := {|
  rating := over (rating u) (rating v);
  flag := over (flag u) (flag v);
  crop := over (crop u) (crop v);
  straightenAngle := over (straightenAngle u) (straightenAngle v);
  rotation := over (rotation u) (rotation v);
  exposure := over (exposure u) (exposure v);
  contrast := over (contrast u) (contrast v);
  whiteBalanceTemp := over (whiteBalanceTemp u) (whiteBalanceTemp v);
  whiteBalanceTint := over (whiteBalanceTint u) (whiteBalanceTint v);
  saturation := over (saturation u) (saturation v);
  vibrance := over (vibrance u) (vibrance v);
  sharpeningAmount := over (sharpeningAmount u) (sharpeningAmount v);
  sharpeningRadius := over (sharpeningRadius u) (sharpeningRadius v)
|}.
End Partial.

(** [{ ...e, ...u }]: the properties of [u] override those of [e]. *)
Definition spread (e : EditState) (u : Partial.t) : EditState := {|
  rating := default (rating e) (Partial.rating u);
  flag := default (flag e) (Partial.flag u);
  crop := default (crop e) (Partial.crop u);
  straightenAngle := default (straightenAngle e) (Partial.straightenAngle u);
  rotation := default (rotation e) (Partial.rotation u);
  exposure := default (exposure e) (Partial.exposure u);
  contrast := default (contrast e) (Partial.contrast u);
  whiteBalanceTemp := default (whiteBalanceTemp e) (Partial.whiteBalanceTemp u);
  whiteBalanceTint := default (whiteBalanceTint e) (Partial.whiteBalanceTint u);
  saturation := default (saturation e) (Partial.saturation u);
  vibrance := default (vibrance e) (Partial.vibrance u);
  sharpeningAmount := default (sharpeningAmount e) (Partial.sharpeningAmount u);
  sharpeningRadius := default (sharpeningRadius e) (Partial.sharpeningRadius u)
|}.

Module Store.

Record State := {
  folderPath : option string;
  files : list ImageFile.t;
  editStates : gmap string EditState;
  thumbnails : gmap string string;
  selectedIndex : Z;
  previewUrl : option Url;
  isLoading : bool;
  error : option string;
  cropMode : bool
}.

Definition initial : State := {|
  folderPath := None;
  files := [];
  editStates := ∅;
  thumbnails := ∅;
  selectedIndex := 0%Z;
  previewUrl := None;
  isLoading := false;
  error := None;
  cropMode := false
|}.

Definition setFolder (p : string) (fs : list ImageFile.t)
    (es : gmap string EditState) (s : State) : State :=
  {| folderPath := Some p; files := fs; editStates := es;
     thumbnails := thumbnails s; selectedIndex := 0%Z; previewUrl := None;
     isLoading := isLoading s; error := None; cropMode := cropMode s |}.

Definition setSelectedIndex (index : Z) (s : State) : State :=
  {| folderPath := folderPath s; files := files s; editStates := editStates s;
     thumbnails := thumbnails s; selectedIndex := index; previewUrl := None;
     isLoading := isLoading s; error := error s; cropMode := cropMode s |}.

Definition setThumbnail (fileId url : string) (s : State) : State :=
  {| folderPath := folderPath s; files := files s; editStates := editStates s;
     thumbnails := <[fileId := url]> (thumbnails s);
     selectedIndex := selectedIndex s; previewUrl := previewUrl s;
     isLoading := isLoading s; error := error s; cropMode := cropMode s |}.

Definition setPreviewUrl (url : option Url) (s : State) : State :=
  {| folderPath := folderPath s; files := files s; editStates := editStates s;
     thumbnails := thumbnails s; selectedIndex := selectedIndex s;
     previewUrl := url; isLoading := isLoading s; error := error s;
     cropMode := cropMode s |}.

Definition updateEdit (fileId : string) (updates : Partial.t) (s : State) : State :=
  {| folderPath := folderPath s; files := files s;
     editStates :=
       <[fileId := spread (default DEFAULT_EDIT_STATE (editStates s !! fileId))
                          updates]> (editStates s);
     thumbnails := thumbnails s; selectedIndex := selectedIndex s;
     previewUrl := previewUrl s; isLoading := isLoading s; error := error s;
     cropMode := cropMode s |}.

Definition setRating (fileId : string) (r : Q) (s : State) : State :=
  let clamped := Math.max 0 (Math.min 5 r) in
  updateEdit fileId (Partial.ofRating clamped) s.

Definition setFlag (fileId : string) (f : Flag) (s : State) : State :=
  updateEdit fileId (Partial.ofFlag f) s.

Definition setLoading (b : bool) (s : State) : State :=
  {| folderPath := folderPath s; files := files s; editStates := editStates s;
     thumbnails := thumbnails s; selectedIndex := selectedIndex s;
     previewUrl := previewUrl s; isLoading := b; error := error s;
     cropMode := cropMode s |}.

Definition setError (e : option string) (s : State) : State :=
  {| folderPath := folderPath s; files := files s; editStates := editStates s;
     thumbnails := thumbnails s; selectedIndex := selectedIndex s;
     previewUrl := previewUrl s; isLoading := isLoading s; error := e;
     cropMode := cropMode s |}.

Definition setCropMode (b : bool) (s : State) : State :=
  {| folderPath := folderPath s; files := files s; editStates := editStates s;
     thumbnails := thumbnails s; selectedIndex := selectedIndex s;
     previewUrl := previewUrl s; isLoading := isLoading s; error := error s;
     cropMode := b |}.

Definition reset (s : State) : State := initial.

(** [files[selectedIndex] || null] *)
Definition selectedFile (s : State) : option ImageFile.t :=
  if (selectedIndex s <? 0)%Z then None
  else nth_error (files s) (Z.to_nat (selectedIndex s)).

Definition selectedEditState (s : State) : EditState :=
  match selectedFile s with
  | None => DEFAULT_EDIT_STATE
  | Some f => default DEFAULT_EDIT_STATE (editStates s !! ImageFile.id f)
  end.

End Store.

(** ** Rotation arithmetic *)

(** The [%] of JavaScript on exact numbers: the remainder of the division
    truncated towards zero, with the sign of the dividend. *)
Definition trunc (q : Q) : Z := Z.quot (Qnum q) (Zpos (Qden q)).
Definition jsrem (a b : Q) : Q := a - b * inject_Z (trunc (a / b)).

(** ** Rating bar (src/components/RatingBar) and keyboard shortcuts
       (src/hooks/useKeyboardShortcuts) *)

(** The backend commands the handlers invoke (src/lib/api). *)
Inductive ApiCall :=
  | apiSetRating (fileId : string) (r : Q)
  | apiSetFlag (fileId : string) (f : Flag)
  | saveEdits (fileId : string) (e : EditState).

Module RatingBar.

Definition handleRating (r : Q) (s : Store.State) : Store.State * list ApiCall :=
  match Store.selectedFile s with
  | None => (s, [])
  | Some file =>
    (Store.setRating (ImageFile.id file) r s, [apiSetRating (ImageFile.id file) r])
  end.

Definition handleFlag (f : Flag) (s : Store.State) : Store.State * list ApiCall :=
  match Store.selectedFile s with
  | None => (s, [])
  | Some file =>
    (Store.setFlag (ImageFile.id file) f s, [apiSetFlag (ImageFile.id file) f])
  end.

(** The click on star number [star]. *)
Definition starClick (star : Q) (s : Store.State) : Store.State * list ApiCall :=
  let edits := Store.selectedEditState s in
  handleRating (if eqb (rating edits) star then 0 else star) s.

Definition is_flag (a b : Flag) : bool :=
  match a, b with
  | none, none | pick, pick | reject, reject => true
  | _, _ => false
  end.

(** The "Pick" and "Reject" buttons. *)
Definition pickClick (s : Store.State) : Store.State * list ApiCall :=
  let edits := Store.selectedEditState s in
  handleFlag (if is_flag (flag edits) pick then none else pick) s.

Definition rejectClick (s : Store.State) : Store.State * list ApiCall :=
  let edits := Store.selectedEditState s in
  handleFlag (if is_flag (flag edits) reject then none else reject) s.

End RatingBar.

Module Keyboard.

Record KeyboardEvent := { key : string; shiftKey : bool }.

(** [parseInt(e.key)] on the keys ["1"] to ["5"]. *)
Definition digit (k : string) : option Q :=
  if String.eqb k "1" then Some 1
  else if String.eqb k "2" then Some 2
  else if String.eqb k "3" then Some 3
  else if String.eqb k "4" then Some 4
  else if String.eqb k "5" then Some 5
  else None.

Definition is_key (k : string) (names : list string) : bool :=
  existsb (String.eqb k) names.

Definition rotateCW (r : Q) : Q := jsrem (r + 90) 360.
Definition rotateCCW (r : Q) : Q := jsrem (jsrem (r - 90) 360 + 360) 360.

Definition handleKeyDown (e : KeyboardEvent) (s : Store.State)
    : Store.State * list ApiCall :=
  match Store.selectedFile s with
  | None => (s, [])
  | Some file =>
    let fileId := ImageFile.id file in
    let edits := Store.selectedEditState s in
    let k := key e in
    if String.eqb k "ArrowLeft" then
      if (0 <? Store.selectedIndex s)%Z
      then (Store.setSelectedIndex (Store.selectedIndex s - 1)%Z s, [])
      else (s, [])
    else if String.eqb k "ArrowRight" then
      if (Store.selectedIndex s <? Z.of_nat (length (Store.files s)) - 1)%Z
      then (Store.setSelectedIndex (Store.selectedIndex s + 1)%Z s, [])
      else (s, [])
    else match digit k with
    | Some r => (Store.setRating fileId r s, [apiSetRating fileId r])
    | None =>
      if String.eqb k "0" then (Store.setRating fileId 0 s, [apiSetRating fileId 0])
      else if is_key k ["p"; "P"]%string
      then (Store.setFlag fileId pick s, [apiSetFlag fileId pick])
      else if is_key k ["x"; "X"]%string
      then (Store.setFlag fileId reject s, [apiSetFlag fileId reject])
      else if is_key k ["u"; "U"]%string
      then (Store.setFlag fileId none s, [apiSetFlag fileId none])
      else if is_key k ["r"; "R"]%string then
        let newRotation :=
          if shiftKey e then rotateCCW (rotation edits) else rotateCW (rotation edits) in
        (Store.updateEdit fileId (Partial.ofRotation newRotation) s,
         [saveEdits fileId (spread edits (Partial.ofRotation newRotation))])
      else (s, [])
    end
  end.

(** A session at the keyboard: the final store and the calls made, in order. *)
Fixpoint run (s : Store.State) (es : list KeyboardEvent)
    : Store.State * list ApiCall :=
  match es with
  | [] => (s, [])
  | e :: rest =>
    let '(s1, calls1) := handleKeyDown e s in
    let '(s2, calls2) := run s1 rest in
    (s2, calls1 ++ calls2)
  end.

End Keyboard.

(** The rotate buttons of the edit panel compute
    [(rotation - 90 + 360) % 360] and [(rotation + 90) % 360]. *)
Module EditPanel.
Definition rotateLeft (r : Q) : Q := jsrem (r - 90 + 360) 360.
Definition rotateRight (r : Q) : Q := jsrem (r + 90) 360.
End EditPanel.

(** ** Further invariants of the loaders *)

Module PreviewInv.
Import Preview.

(** The calls made so far: numbered in the order made, none above the
    latest number, and all below the number of an armed timer. *)
Record numbered (s : State) : Prop := {
  numbered_sorted :
    StronglySorted (fun a b => (reqId b < reqId a)%nat) (requests s);
  numbered_range :
    forall r, In r (requests s) ->
      (1 <= reqId r <= requestIdRef s)%nat /\ maxSize r = 1600%Z;
  numbered_armed :
    forall c r, armed s c -> In r (requests s) ->
      (reqId r < currentRequestId c)%nat;
  numbered_positive :
    forall c, armed s c -> (1 <= currentRequestId c)%nat
}.

(** Only the run whose cleanup React still holds has [cancelled] unset. *)
Record guarded (s : State) : Prop := {
  guarded_awaiting :
    forall c, In c (awaiting s) -> cancelled c = false ->
      cleanup s = Some (currentRequestId c);
  guarded_armed :
    forall c, armed s c -> cancelled c = false
}.

(** Something is still to come that will lower the loading flag: an armed
    timer, or a suspended call that would pass the guard. *)
Definition pending (s : State) : Prop :=
  (exists c, armed s c) \/
  (exists c, In c (awaiting s) /\ current c s = true).

(** Every event of the trace is a settled promise. *)
Definition onlySettles (tevs : list (Z * Event)) : Prop :=
  Forall (fun tev => match snd tev with
                     | Settle _ _ => True
                     | _ => False
                     end) tevs.

End PreviewInv.

Module CompareInv.
Import Compare.

(** Only the run whose cleanup React still holds has [cancelled] unset; that
    run made the latest request; and with compare mode off, or no file
    selected, no cleanup is held and no "before" URL is kept. *)
Record guarded (s : State) : Prop := {
  guarded_awaiting :
    forall c, In c (awaiting s) -> cancelled c = false -> cleanup s = Some (handle c);
  guarded_latest :
    forall h, cleanup s = Some h -> S h = length (requests s);
  guarded_idle :
    compareMode s = off \/ file s = None -> cleanup s = None /\ beforeUrl s = None
}.

End CompareInv.

(** ** Predicates on the store *)

Module StoreInv.

(** Every stored rating lies between 0 and 5. *)
Definition ratingsInRange (s : Store.State) : Prop :=
  forall (fileId : string) (e : EditState),
    Store.editStates s !! fileId = Some e -> 0 <= rating e <= 5.

(** The rotations the type [0 | 90 | 180 | 270] admits. *)
Definition rotations : list Q := [0; 90; 180; 270].

(** A backend call agrees with the store: the value it sends for a file is
    the value the store now holds for that file. *)
Definition agrees (s : Store.State) (call : ApiCall) : Prop :=
  match call with
  | apiSetRating fileId r =>
    exists e, Store.editStates s !! fileId = Some e /\ rating e == r
  | apiSetFlag fileId f =>
    exists e, Store.editStates s !! fileId = Some e /\ flag e = f
  | saveEdits fileId e => Store.editStates s !! fileId = Some e
  end.

(** The file a backend call is about. *)
Definition target (call : ApiCall) : string :=
  match call with
  | apiSetRating fileId _ | apiSetFlag fileId _ | saveEdits fileId _ => fileId
  end.

Definition arrowLeft : Keyboard.KeyboardEvent :=
  {| Keyboard.key := "ArrowLeft"; Keyboard.shiftKey := false |}.
Definition arrowRight : Keyboard.KeyboardEvent :=
  {| Keyboard.key := "ArrowRight"; Keyboard.shiftKey := false |}.

End StoreInv.

(** ** Predicates on the view *)

Module ViewportInv.

(** The zoom level [n / 4].  For [n] from 2 to 20 these are the quarter
    steps from 0.5 to 5, the levels the zoom buttons, the double click and
    the reset button move between; sums and differences of such numbers
    with 0.25 are computed without rounding. *)
Definition quarter (n : Z) : Q := inject_Z n / 4.

Definition onQuarters (z : Q) : Prop :=
  exists n : Z, (2 <= n <= 20)%Z /\ z == quarter n.

(** Every event but a turn of the wheel. *)
Definition noWheel (ev : Viewport.Event) : bool :=
  match ev with
  | Viewport.Wheel _ => false
  | _ => true
  end.

End ViewportInv.

(** ** Property names *)

Module PropertyNames.

(** The names every object literal inherits from [Object.prototype].
    Reading one of them from the record of edit states finds the inherited
    value when no edits are stored under it, so
    [state.editStates[fileId] || DEFAULT_EDIT_STATE] is the default only for
    other names. *)
Definition inherited : list string :=
  [ "constructor"; "hasOwnProperty"; "isPrototypeOf"; "propertyIsEnumerable";
    "toLocaleString"; "toString"; "valueOf"; "__proto__";
    "__defineGetter__"; "__defineSetter__"; "__lookupGetter__";
    "__lookupSetter__" ]%string.

(** A file id that is none of these names, as every id the backend issues
    is (a UUID). *)
Definition plainId (fileId : string) : bool :=
  negb (existsb (String.eqb fileId) inherited).

End PropertyNames.

(** * Properties *)

(** ** Numbers *)

Lemma ltb_lt a b : ltb a b = true <-> a < b.
Proof.
  unfold ltb. rewrite negb_true_iff, <- not_true_iff_false, Qle_bool_iff.
  split; [apply Qnot_le_lt | apply Qlt_not_le].
Qed.

Lemma truthy_Some a : truthy (Some a) = true <-> ~ a == 0.
Proof.
  unfold truthy, eqb. rewrite negb_true_iff, <- not_true_iff_false, Qeq_bool_iff.
  tauto.
Qed.

Lemma max_lower a b : a <= Math.max a b.
Proof. apply Q.le_max_l. Qed.

Lemma clamp_bounds lo hi v : lo <= hi -> lo <= Math.max lo (Math.min hi v) <= hi.
Proof.
  intros Hle. split; [apply Q.le_max_l |].
  apply Q.max_lub; [exact Hle | apply Q.le_min_l].
Qed.

(** ** Zoom *)

Section Zoom.
Import Viewport.

Ltac handler_cases :=
  repeat match goal with
         | |- context [match ?t with _ => _ end] => destruct t
         end; try reflexivity.

(** Pointer handlers and the crop tool never write [zoomLevel]. *)
Lemma handleMouseDown_zoomLevel c e s :
  zoomLevel (handleMouseDown c e s) = zoomLevel s.
Proof. unfold handleMouseDown. handler_cases. Qed.

Lemma handleMouseMove_zoomLevel c e s :
  zoomLevel (handleMouseMove c e s) = zoomLevel s.
Proof. unfold handleMouseMove. handler_cases. Qed.

Lemma handleMouseUp_zoomLevel s : zoomLevel (handleMouseUp s) = zoomLevel s.
Proof. unfold handleMouseUp. handler_cases. Qed.

Lemma applyCrop_zoomLevel img c f s :
  zoomLevel (applyCrop img c f s) = zoomLevel s.
Proof. unfold applyCrop. handler_cases. Qed.

Lemma handleWheel_range e s :
  0.5 <= zoomLevel s <= 5 -> 0.5 <= zoomLevel (handleWheel e s) <= 5.
Proof.
  intros Hz. unfold handleWheel. destruct (cropMode s); [exact Hz |].
  cbn [zoomLevel setZoomLevel]. apply clamp_bounds. lra.
Qed.

Lemma zoomOutClick_range s :
  0.5 <= zoomLevel s <= 5 -> 0.5 <= zoomLevel (zoomOutClick s) <= 5.
Proof.
  intros [Hlo Hhi]. unfold zoomOutClick. cbn [zoomLevel setZoomLevel].
  split; [apply Q.le_max_l |]. apply Q.max_lub; lra.
Qed.

Lemma zoomInClick_range s :
  0.5 <= zoomLevel s <= 5 -> 0.5 <= zoomLevel (zoomInClick s) <= 5.
Proof.
  intros [Hlo Hhi]. unfold zoomInClick. cbn [zoomLevel setZoomLevel].
  split; [| apply Q.le_min_l]. apply Q.min_glb; lra.
Qed.

Lemma handleDoubleClick_range s :
  0.5 <= zoomLevel s <= 5 -> 0.5 <= zoomLevel (handleDoubleClick s) <= 5.
Proof.
  intros Hz. unfold handleDoubleClick.
  destruct (cropMode s); cbn [negb]; [exact Hz |].
  destruct (eqb (zoomLevel s) 1); cbn; lra.
Qed.

Lemma resetZoom_range s : 0.5 <= zoomLevel (resetZoom s) <= 5.
Proof. cbn. lra. Qed.

Lemma step_zoom_range s ev :
  0.5 <= zoomLevel s <= 5 -> 0.5 <= zoomLevel (step s ev) <= 5.
Proof.
  intros Hz. destruct ev; cbn [step].
  - now apply handleWheel_range.
  - now rewrite handleMouseDown_zoomLevel.
  - now rewrite handleMouseMove_zoomLevel.
  - now rewrite handleMouseUp_zoomLevel.
  - now rewrite handleMouseUp_zoomLevel.
  - now apply handleDoubleClick_range.
  - now apply zoomOutClick_range.
  - now apply zoomInClick_range.
  - apply resetZoom_range.
  - now destruct (cropMode s).
  - destruct (cropMode s); [now rewrite applyCrop_zoomLevel | exact Hz].
  - now destruct (cropMode s).
  - exact Hz.
Qed.

Lemma run_zoom_range evs : forall s,
  0.5 <= zoomLevel s <= 5 -> 0.5 <= zoomLevel (run s evs) <= 5.
Proof.
  induction evs as [| ev evs IH]; intros s Hz; [exact Hz |].
  cbn [run fold_left]. apply IH. now apply step_zoom_range.
Qed.

Lemma init_zoom_range : 0.5 <= zoomLevel init <= 5.
Proof. cbn. lra. Qed.

(** C7.  In every state the component reaches from its initial state, the
    zoom level lies in [0.5, 5], and so does the zoom level after each zoom
    operation applied there: a wheel step, the zoom-in button, the zoom-out
    button, the double-click toggle, the reset button.  Outside crop mode a
    wheel step sets the zoom level to the product of the old level and 1.1
    (wheel up) or 0.9 (wheel down), clamped to [0.5, 5]. *)
Theorem zoomLevel_always_clamped :
  forall (evs : list Event) (e : WheelEvent),
    let s := run init evs in
    0.5 <= zoomLevel s <= 5 /\
    0.5 <= zoomLevel (handleWheel e s) <= 5 /\
    0.5 <= zoomLevel (zoomInClick s) <= 5 /\
    0.5 <= zoomLevel (zoomOutClick s) <= 5 /\
    0.5 <= zoomLevel (handleDoubleClick s) <= 5 /\
    0.5 <= zoomLevel (resetZoom s) <= 5 /\
    (cropMode s = false ->
     zoomLevel (handleWheel e s)
     = Math.max 0.5 (Math.min 5 (zoomLevel s
                                 * (if gtb (deltaY e) 0 then 0.9 else 1.1)))).
Proof.
  intros evs e s.
  assert (Hs : 0.5 <= zoomLevel s <= 5)
    by (apply run_zoom_range, init_zoom_range).
  repeat split; try apply Hs.
  - now apply handleWheel_range.
  - now apply handleWheel_range.
  - now apply zoomInClick_range.
  - now apply zoomInClick_range.
  - now apply zoomOutClick_range.
  - now apply zoomOutClick_range.
  - now apply handleDoubleClick_range.
  - now apply handleDoubleClick_range.
  - apply resetZoom_range.
  - apply resetZoom_range.
  - intros Hcrop. unfold handleWheel. now rewrite Hcrop.
Qed.

Lemma zoomLevel_always_clamped_witness :
  let evs := [ZoomInButton; Wheel {| deltaY := -1 |}; DoubleClick] in
  let s := run init evs in
  cropMode s = false /\
  zoomLevel (handleWheel {| deltaY := 3 |} s)
  = Math.max 0.5 (Math.min 5 (zoomLevel s * 0.9)).
Proof.
  split; [reflexivity |].
  apply (zoomLevel_always_clamped
           [ZoomInButton; Wheel {| deltaY := -1 |}; DoubleClick]
           {| deltaY := 3 |}).
  reflexivity.
Defined.

(** Scenario A: at zoom 1 a double click zooms to 2, and a second one
    returns to zoom 1 with the pan offset reset. *)
Example scenario_A_toggle_zoom :
  let s1 := step init DoubleClick in
  let s2 := step s1 DoubleClick in
  zoomLevel s1 = 2 /\ zoomLevel s2 = 1 /\ panOffset s2 = {| px := 0; py := 0 |}.
Proof. repeat split. Qed.

(** C10.  While crop mode is on, a wheel event and a double click each
    leave the zoom level and the pan offset as they were. *)
Theorem cropMode_suppresses_wheel_and_doubleClick :
  forall (s : State) (e : WheelEvent),
    cropMode s = true ->
    zoomLevel (handleWheel e s) = zoomLevel s /\
    panOffset (handleWheel e s) = panOffset s /\
    zoomLevel (handleDoubleClick s) = zoomLevel s /\
    panOffset (handleDoubleClick s) = panOffset s.
Proof.
  intros s e Hcrop. unfold handleWheel, handleDoubleClick.
  rewrite Hcrop. cbn [negb]. repeat split.
Qed.

Lemma cropMode_suppresses_wheel_and_doubleClick_witness :
  let s := run init [ZoomInButton; CropToggle] in
  let e := {| deltaY := -120 |} in
  cropMode s = true /\
  zoomLevel (handleWheel e s) = zoomLevel s /\
  panOffset (handleWheel e s) = panOffset s /\
  zoomLevel (handleDoubleClick s) = zoomLevel s /\
  panOffset (handleDoubleClick s) = panOffset s.
Proof.
  split; [reflexivity |].
  apply (cropMode_suppresses_wheel_and_doubleClick
           (run init [ZoomInButton; CropToggle]) {| deltaY := -120 |}).
  reflexivity.
Defined.

End Zoom.

(** ** The crop tool *)

Section Crop.
Import Viewport.

Lemma lockedOr_free ratio w free :
  truthy ratio = false -> lockedOr ratio w free = free.
Proof. unfold lockedOr. destruct ratio; intros H; [now rewrite H | reflexivity]. Qed.

Lemma lockedOr_locked a w free :
  truthy (Some a) = true -> lockedOr (Some a) w free = w / a.
Proof. unfold lockedOr. now intros ->. Qed.

(** What a pointer move does in the middle of a resize drag. *)
Lemma handleMouseMove_resize s c e m r :
  isDraggingCrop s = true -> cropMode s = true ->
  cropDragMode s = Some m -> startsWith_resize m = true ->
  cropRect s = Some r ->
  handleMouseMove (Some c) e s
  = setCropRect (Some (resizeRect m r (aspectRatio s)
                         (clientX e - dleft c) (clientY e - dtop c))) s.
Proof.
  intros Hdrag Hcrop Hmode Hres Hrect. unfold handleMouseMove.
  rewrite Hdrag, Hcrop, Hmode, Hrect. cbn [andb].
  destruct m; try discriminate Hres; destruct (cropStart s); reflexivity.
Qed.

Lemma resizeRect_width m r ratio mx my :
  startsWith_resize m = true -> 20 <= width (resizeRect m r ratio mx my).
Proof.
  intros Hres. destruct m; try discriminate Hres; cbn [resizeRect width];
    apply max_lower.
Qed.

Lemma resizeRect_height_free m r ratio mx my :
  startsWith_resize m = true -> truthy ratio = false ->
  20 <= height (resizeRect m r ratio mx my).
Proof.
  intros Hres Hfree.
  destruct m; try discriminate Hres; cbn [resizeRect height];
    rewrite lockedOr_free by exact Hfree; apply max_lower.
Qed.

Lemma resizeRect_height_locked m r a mx my :
  startsWith_resize m = true -> truthy (Some a) = true ->
  height (resizeRect m r (Some a) mx my)
  = width (resizeRect m r (Some a) mx my) / a.
Proof.
  intros Hres Hlock.
  destruct m; try discriminate Hres; cbn [resizeRect height width];
    now rewrite lockedOr_locked.
Qed.

(** C8, as stated, fails: with the 16:9 ratio locked, dragging the
    south-east handle of the box (100,100,200,150) to (110,300) leaves a
    box 20 wide and 11.25 high. *)
Lemma resize_floor_fails_when_locked :
  ~ (forall (s : State) (c : DOMRect) (e : MouseEvent) (m : CropDragMode)
            (r : Rect),
       isDraggingCrop s = true -> cropMode s = true ->
       cropDragMode s = Some m -> startsWith_resize m = true ->
       cropRect s = Some r ->
       exists r',
         cropRect (handleMouseMove (Some c) e s) = Some r' /\
         20 <= width r' /\ 20 <= height r').
Proof.
  intros H.
  pose (c := {| dleft := 0; dtop := 0; dwidth := 800; dheight := 600 |}).
  pose (s := run init
               [CropToggle;
                MouseDown (Some c) {| clientX := 100; clientY := 100 |};
                MouseMove (Some c) {| clientX := 300; clientY := 250 |};
                MouseUp;
                AspectButton (Some (16/9));
                MouseDown (Some c) {| clientX := 300; clientY := 250 |}]).
  destruct (H s c {| clientX := 110; clientY := 300 |} resize_se
              {| x := 100; y := 100; width := 200; height := 150 |})
    as (r' & Hr' & _ & Hh); try reflexivity.
  vm_compute in Hr'. injection Hr' as <-.
  vm_compute in Hh. apply Hh. reflexivity.
Qed.

(** C8, amended.  After each pointer move of a resize drag, whatever the
    corner and the pointer position, the width of the crop box is at least
    20; its height is at least 20 when the aspect ratio is free, and equals
    the width divided by the ratio when a ratio is locked. *)
Theorem resize_floor :
  forall (s : State) (c : DOMRect) (e : MouseEvent) (m : CropDragMode)
         (r : Rect),
    isDraggingCrop s = true -> cropMode s = true ->
    cropDragMode s = Some m -> startsWith_resize m = true ->
    cropRect s = Some r ->
    exists r',
      cropRect (handleMouseMove (Some c) e s) = Some r' /\
      20 <= width r' /\
      (truthy (aspectRatio s) = false -> 20 <= height r') /\
      (forall a, aspectRatio s = Some a -> truthy (Some a) = true ->
                 height r' = width r' / a).
Proof.
  intros s c e m r Hdrag Hcrop Hmode Hres Hrect.
  rewrite (handleMouseMove_resize s c e m r) by assumption.
  eexists. split; [reflexivity |]. split; [| split].
  - now apply resizeRect_width.
  - now apply resizeRect_height_free.
  - intros a Ha Hlock. rewrite Ha. now apply resizeRect_height_locked.
Qed.

Lemma resize_floor_witness :
  let c := {| dleft := 0; dtop := 0; dwidth := 800; dheight := 600 |} in
  let s := run init
             [CropToggle;
              MouseDown (Some c) {| clientX := 100; clientY := 100 |};
              MouseMove (Some c) {| clientX := 300; clientY := 250 |};
              MouseUp;
              MouseDown (Some c) {| clientX := 100; clientY := 250 |}] in
  let e := {| clientX := 290; clientY := 120 |} in
  let r := {| x := 100; y := 100; width := 200; height := 150 |} in
  (isDraggingCrop s = true /\ cropMode s = true /\
   cropDragMode s = Some resize_sw /\ startsWith_resize resize_sw = true /\
   cropRect s = Some r) /\
  exists r',
    cropRect (handleMouseMove (Some c) e s) = Some r' /\
    20 <= width r' /\
    (truthy (aspectRatio s) = false -> 20 <= height r') /\
    (forall a, aspectRatio s = Some a -> truthy (Some a) = true ->
               height r' = width r' / a).
Proof.
  intros c s e r.
  split; [repeat split |].
  apply (resize_floor s c e resize_sw r); reflexivity.
Defined.

(** A resize drag stays a resize drag under pointer moves. *)
Lemma resize_drag_preserved m a path : forall s r,
  isDraggingCrop s = true -> cropMode s = true ->
  cropDragMode s = Some m -> startsWith_resize m = true ->
  cropRect s = Some r -> aspectRatio s = a ->
  let s' := run s (moves path) in
  isDraggingCrop s' = true /\ cropMode s' = true /\
  cropDragMode s' = Some m /\ aspectRatio s' = a /\
  exists r', cropRect s' = Some r'.
Proof.
  induction path as [| [c e] path IH]; intros s r Hdrag Hcrop Hmode Hres Hrect Ha.
  - cbn. eauto 6.
  - cbn [moves map run fold_left fst snd step].
    rewrite (handleMouseMove_resize s c e m r) by assumption.
    eapply IH; cbn; eauto.
Qed.

Lemma run_app s evs1 evs2 : run s (evs1 ++ evs2) = run (run s evs1) evs2.
Proof. unfold run. apply fold_left_app. Qed.

(** C9.  In a resize drag on the south-east corner with ratio [a] locked,
    after every pointer move of any drag path the crop box has height equal
    to width divided by [a]; releasing the pointer keeps that box, which is
    the one a commit then reads. *)
Theorem resize_se_keeps_ratio :
  forall (s : State) (r : Rect) (a : Q)
         (path : list (DOMRect * MouseEvent)) (c : DOMRect) (e : MouseEvent),
    isDraggingCrop s = true -> cropMode s = true ->
    cropDragMode s = Some resize_se -> cropRect s = Some r ->
    aspectRatio s = Some a -> ~ a == 0 ->
    let s' := run s (moves (path ++ [(c, e)])) in
    exists r',
      cropRect s' = Some r' /\
      height r' == width r' / a /\
      cropRect (handleMouseUp s') = Some r'.
Proof.
  intros s r a path c e Hdrag Hcrop Hmode Hrect Ha Hnz s'.
  subst s'. unfold moves. rewrite map_app, run_app. fold (moves path).
  destruct (resize_drag_preserved resize_se (Some a) path s r)
    as (Hdrag' & Hcrop' & Hmode' & Ha' & r1 & Hrect'); auto.
  set (s1 := run s (moves path)) in *.
  cbn [map run fold_left fst snd step].
  rewrite (handleMouseMove_resize s1 c e resize_se r1) by auto.
  eexists. split; [reflexivity |]. split.
  - rewrite Ha'. rewrite resizeRect_height_locked.
    + reflexivity.
    + reflexivity.
    + now apply truthy_Some.
  - unfold handleMouseUp. cbn [cropDragMode setCropRect setIsPanning].
    rewrite Hmode'.
    match goal with
    | |- context [if ?b then _ else _] => destruct b
    end; reflexivity.
Qed.

Lemma resize_se_keeps_ratio_witness :
  let c := {| dleft := 0; dtop := 0; dwidth := 800; dheight := 600 |} in
  let s := run init
             [CropToggle;
              MouseDown (Some c) {| clientX := 100; clientY := 100 |};
              MouseMove (Some c) {| clientX := 300; clientY := 250 |};
              MouseUp;
              AspectButton (Some (3/2));
              MouseDown (Some c) {| clientX := 300; clientY := 250 |}] in
  let r := {| x := 100; y := 100; width := 200; height := 150 |} in
  let path := [(c, {| clientX := 320; clientY := 260 |});
               (c, {| clientX := 90; clientY := 400 |})] in
  let e := {| clientX := 400; clientY := 120 |} in
  (isDraggingCrop s = true /\ cropMode s = true /\
   cropDragMode s = Some resize_se /\ cropRect s = Some r /\
   aspectRatio s = Some (3/2) /\ ~ 3/2 == 0) /\
  exists r',
    cropRect (run s (moves (path ++ [(c, e)]))) = Some r' /\
    height r' == width r' / (3/2) /\
    cropRect (handleMouseUp (run s (moves (path ++ [(c, e)])))) = Some r'.
Proof.
  intros c s r path e.
  split; [repeat split; discriminate |].
  apply (resize_se_keeps_ratio s r (3/2) path c e);
    try reflexivity; discriminate.
Defined.

(** C4.  Scenario B: in crop mode with the ratio free, pressing at
    (100,100) and dragging to (300,250) gives the box (100,100,200,150);
    committing it over an image shown at (0,0) 800 by 600 whose natural size
    is 3200 by 2400 stores the crop x 400, y 400, width 800, height 600. *)
Theorem scenario_B_crop_commit :
  let c := {| dleft := 0; dtop := 0; dwidth := 800; dheight := 600 |} in
  let img := {| bounds := c; naturalWidth := 3200; naturalHeight := 2400 |} in
  let s1 := run init
              [CropToggle;
               MouseDown (Some c) {| clientX := 100; clientY := 100 |};
               MouseMove (Some c) {| clientX := 300; clientY := 250 |}] in
  let s2 := run s1 [MouseUp; ApplyButton (Some img) (Some c) (Some "photo"%string)] in
  cropMode s1 = true /\ aspectRatio s1 = None /\
  cropRect s1 = Some {| x := 100; y := 100; width := 200; height := 150 |} /\
  exists (es : EditState) (o : JsObject),
    editStates s2 !! "photo"%string = Some es /\
    crop es = Some o /\
    same_object o [("x", 400); ("y", 400); ("width", 800); ("height", 600)]%string.
Proof.
  cbv zeta. split; [reflexivity |]. split; [reflexivity |].
  split; [reflexivity |].
  eexists. eexists. split; [vm_compute; reflexivity |].
  split; [reflexivity |].
  repeat constructor.
Qed.

(** C3, on the code.  The object [applyCrop] stores never has a property
    [top], [left], [bottom] or [right]: its properties are [x], [y],
    [width], [height]; on the input of scenario B they are 400, 400, 800
    and 600, image pixels that exceed 1. *)
Theorem applyCrop_stores_pixel_box :
  (forall (r : Rect) (img : ImageElement) (c : DOMRect),
     map fst (cropLiteral r img c) = ["x"; "y"; "width"; "height"]%string /\
     Forall (fun k => prop (cropLiteral r img c) k = None) CropRect_fields) /\
  let c := {| dleft := 0; dtop := 0; dwidth := 800; dheight := 600 |} in
  let img := {| bounds := c; naturalWidth := 3200; naturalHeight := 2400 |} in
  let r := {| x := 100; y := 100; width := 200; height := 150 |} in
  let s := setCropRect (Some r) (setCropMode true init) in
  exists (es : EditState) (o : JsObject),
    editStates (applyCrop (Some img) (Some c) (Some "photo"%string) s)
      !! "photo"%string = Some es /\
    crop es = Some o /\
    same_object o [("x", 400); ("y", 400); ("width", 800); ("height", 600)]%string /\
    Forall (fun kv => 1 < snd kv) o.
Proof.
  split.
  - intros r img c. split; [reflexivity |].
    repeat constructor.
  - cbv zeta. eexists. eexists. split; [vm_compute; reflexivity |].
    split; [reflexivity |]. split; repeat constructor.
Qed.

End Crop.

(** ** The preview loader *)

Section PreviewLoader.
Import Preview.

Local Arguments ids : simpl never.

Lemma ids_cancel id l :
  ids (map (fun c => if Nat.eqb (currentRequestId c) id then cancel c else c) l)
  = ids l.
Proof.
  unfold ids. rewrite map_map. apply map_ext.
  intros c. now destruct (Nat.eqb (currentRequestId c) id).
Qed.

Lemma in_cancel c' id l :
  In c' (map (fun c => if Nat.eqb (currentRequestId c) id then cancel c else c) l) ->
  exists c, In c l /\ currentRequestId c' = currentRequestId c /\
            capturedPreviewUrl c' = capturedPreviewUrl c /\
            fileId c' = fileId c /\ edits c' = edits c.
Proof.
  rewrite in_map_iff. intros (c & <- & Hin). exists c. split; [exact Hin |].
  now destruct (Nat.eqb (currentRequestId c) id).
Qed.

Lemma ids_filter_incl p l n : In n (ids (List.filter p l)) -> In n (ids l).
Proof.
  unfold ids. rewrite !in_map_iff. intros (c & <- & Hin).
  apply filter_In in Hin. exists c. tauto.
Qed.

Lemma ids_filter_nodup p l : List.NoDup (ids l) -> List.NoDup (ids (List.filter p l)).
Proof.
  unfold ids. induction l as [| c l IH]; cbn; [auto |].
  intros Hnd. inversion Hnd as [| ? ? Hnotin Hnd']; subst.
  destruct (p c); cbn; [| now apply IH].
  constructor; [| now apply IH].
  intros Hin. apply Hnotin. now apply (ids_filter_incl p).
Qed.

Lemma ids_dropped id l :
  ~ In id (ids (List.filter (fun c => negb (is_closure id c)) l)).
Proof.
  unfold ids. rewrite in_map_iff. intros (c & Hid & Hin).
  apply filter_In in Hin. destruct Hin as [_ Hne].
  unfold is_closure in Hne. rewrite Hid, Nat.eqb_refl in Hne. discriminate.
Qed.

Lemma find_closure id l c :
  find (is_closure id) l = Some c -> In c l /\ currentRequestId c = id.
Proof.
  intros H. apply find_some in H. destruct H as [Hin Hid].
  split; [exact Hin |]. now apply Nat.eqb_eq.
Qed.

(** *** Reachable states are well formed *)

Lemma wf_init : wf init.
Proof.
  constructor; cbn; try (intros; contradiction); try discriminate.
  - constructor.
  - intros c [due H]. discriminate.
  - intros c [due H]. discriminate.
  - intros c u [[] | [due H]]. discriminate.
Qed.

(** Under [wf], running the cleanup leaves no timer armed. *)
Lemma runCleanup_timer s : wf s -> timer (runCleanup s) = None.
Proof.
  intros Hwf. unfold runCleanup.
  destruct (timer s) as [[due c] |] eqn:Htimer.
  - rewrite (wf_timer_cleanup s Hwf c) by (now exists due).
    cbn. now rewrite ?Htimer, Nat.eqb_refl.
  - destruct (cleanup s); cbn; now rewrite ?Htimer.
Qed.

Lemma runCleanup_fields s :
  requestIdRef (runCleanup s) = requestIdRef s /\
  previewUrl (runCleanup s) = previewUrl s /\
  blobs (runCleanup s) = blobs s /\
  nextUrl (runCleanup s) = nextUrl s /\
  requests (runCleanup s) = requests s /\
  console (runCleanup s) = console s /\
  error (runCleanup s) = error s /\
  localLoading (runCleanup s) = localLoading s /\
  ids (awaiting (runCleanup s)) = ids (awaiting s).
Proof.
  unfold runCleanup. destruct (cleanup s); cbn; repeat split.
  apply ids_cancel.
Qed.

Lemma runCleanup_awaiting s c' :
  In c' (awaiting (runCleanup s)) ->
  exists c, In c (awaiting s) /\ currentRequestId c' = currentRequestId c /\
            capturedPreviewUrl c' = capturedPreviewUrl c.
Proof.
  unfold runCleanup. destruct (cleanup s); cbn.
  - intros H. apply in_cancel in H. destruct H as (c & ? & ? & ? & _). eauto.
  - eauto.
Qed.

Lemma wf_advance now s : wf s -> wf (advance now s).
Proof.
  intros Hwf. unfold advance.
  destruct (timer s) as [[due c] |] eqn:Htimer; [| exact Hwf].
  destruct (due <=? now)%Z; [| exact Hwf].
  assert (Harmed : armed s c) by (now exists due).
  destruct (wf_timer_latest s Hwf c Harmed) as [Hid Hnotin].
  constructor; unfold armed; cbn.
  - intros c' [<- | Hin]; [lia | now apply (wf_awaiting_le s Hwf)].
  - constructor; [exact Hnotin | apply (wf_awaiting_nodup s Hwf)].
  - intros c' [due' H]. discriminate.
  - intros c' [due' H]. discriminate.
  - apply (wf_shown_fresh s Hwf).
  - intros c' u [[<- | Hin] | [due' H]]; try discriminate;
      apply (wf_captured_fresh s Hwf); auto.
Qed.

Lemma wf_effectRun now file e s : wf s -> wf (effectRun now file e s).
Proof.
  intros Hwf. unfold effectRun.
  pose proof (runCleanup_timer s Hwf) as Htimer.
  destruct (runCleanup_fields s) as (Hreq & Hurl & _ & Hnext & _ & _ & _ & _ & Hids).
  assert (Hle : forall c, In c (awaiting (runCleanup s)) ->
                          (currentRequestId c <= requestIdRef s)%nat).
  { intros c Hin. apply runCleanup_awaiting in Hin.
    destruct Hin as (c0 & Hin & -> & _). now apply (wf_awaiting_le s Hwf). }
  assert (Hcap : forall c u, In c (awaiting (runCleanup s)) ->
                             capturedPreviewUrl c = Some u -> (u < nextUrl s)%nat).
  { intros c u Hin Hu. apply runCleanup_awaiting in Hin.
    destruct Hin as (c0 & Hin & _ & Hcap). rewrite Hcap in Hu.
    apply (wf_captured_fresh s Hwf c0); auto. }
  unfold effectBody. destruct file as [f |]; constructor; unfold armed; cbn;
    rewrite ?Hreq, ?Hurl, ?Hnext, ?Hids.
  - intros c Hin. apply Hle in Hin. lia.
  - apply (wf_awaiting_nodup s Hwf).
  - intros c [due H]. injection H as _ <-. cbn. split; [reflexivity |].
    unfold ids. rewrite in_map_iff. intros (c & Hid & Hin).
    apply (wf_awaiting_le s Hwf) in Hin. lia.
  - intros c [due H]. now injection H as _ <-.
  - apply (wf_shown_fresh s Hwf).
  - intros c u [Hin | [due H]] Hu; [now apply (Hcap c) |].
    injection H as _ <-. cbn in Hu. rewrite ?Hurl in Hu.
    now apply (wf_shown_fresh s Hwf).
  - exact Hle.
  - apply (wf_awaiting_nodup s Hwf).
  - intros c [due H]. rewrite Htimer in H. discriminate.
  - intros c [due H]. rewrite Htimer in H. discriminate.
  - discriminate.
  - intros c u [Hin | [due H]] Hu; [now apply (Hcap c) |].
    rewrite Htimer in H. discriminate.
Qed.

Lemma wf_dropAwaiting id s : wf s -> wf (dropAwaiting id s).
Proof.
  intros Hwf. constructor; unfold armed; cbn.
  - intros c Hin. apply filter_In in Hin. now apply (wf_awaiting_le s Hwf).
  - apply ids_filter_nodup, (wf_awaiting_nodup s Hwf).
  - intros c Harmed. destruct (wf_timer_latest s Hwf c Harmed) as [Hid Hnotin].
    split; [exact Hid |]. intros Hin. apply Hnotin.
    now apply ids_filter_incl in Hin.
  - apply (wf_timer_cleanup s Hwf).
  - apply (wf_shown_fresh s Hwf).
  - intros c u [Hin | Harmed]; apply (wf_captured_fresh s Hwf); auto.
    left. apply filter_In in Hin. tauto.
Qed.

Lemma wf_resume c o s : wf s -> wf (loadPreview_resume c o s).
Proof.
  intros Hwf. unfold loadPreview_resume.
  destruct o; destruct (current c s); try exact Hwf;
    constructor; unfold armed; cbn;
    try apply (wf_awaiting_le s Hwf); try apply (wf_awaiting_nodup s Hwf);
    try apply (wf_timer_latest s Hwf); try apply (wf_timer_cleanup s Hwf);
    try discriminate.
  - intros u [= <-]. lia.
  - intros c' u Hc Hu. pose proof (wf_captured_fresh s Hwf c' u Hc Hu). lia.
  - apply (wf_captured_fresh s Hwf).
Qed.

Lemma wf_settle id o s : wf s -> wf (settle id o s).
Proof.
  intros Hwf. unfold settle.
  destruct (find (is_closure id) (awaiting s)); [| exact Hwf].
  now apply wf_resume, wf_dropAwaiting.
Qed.

Lemma wf_setSelectedIndex s : wf s -> wf (setSelectedIndex s).
Proof.
  intros Hwf. constructor; unfold armed; cbn;
    try apply (wf_awaiting_le s Hwf); try apply (wf_awaiting_nodup s Hwf);
    try apply (wf_timer_latest s Hwf); try apply (wf_timer_cleanup s Hwf);
    try apply (wf_captured_fresh s Hwf); discriminate.
Qed.

Lemma wf_step s tev : wf s -> wf (step s tev).
Proof.
  intros Hwf. unfold step, handle. apply (wf_advance (fst tev)) in Hwf.
  destruct (snd tev).
  - now apply wf_effectRun.
  - now apply wf_settle.
  - now apply wf_setSelectedIndex.
Qed.

Lemma wf_run tevs : forall s, wf s -> wf (run s tevs).
Proof.
  induction tevs as [| tev tevs IH]; intros s Hwf; [exact Hwf |].
  cbn [run fold_left]. apply IH. now apply wf_step.
Qed.


(** *** Accepted responses *)

Lemma logged_ext s s' log :
  requestIdRef s' = requestIdRef s -> ids (awaiting s') = ids (awaiting s) ->
  timer s' = timer s -> logged s log -> logged s' log.
Proof.
  intros Hreq Hids Htimer [Hle Hdone Hfired Hsorted].
  constructor; unfold armed; rewrite ?Hreq, ?Hids, ?Htimer; auto.
Qed.

Lemma logged_advance now s log : wf s -> logged s log -> logged (advance now s) log.
Proof.
  intros Hwf Hlog. unfold advance.
  destruct (timer s) as [[due c] |] eqn:Htimer; [| exact Hlog].
  destruct (due <=? now)%Z; [| exact Hlog].
  destruct Hlog as [Hle Hdone Hfired Hsorted].
  constructor; unfold armed; cbn; auto.
  - intros r Hin [Hc | Hr].
    + apply (Hfired r c Hin); [now exists due | exact Hc].
    + now apply (Hdone r).
  - intros r c' _ [due' H]. discriminate.
Qed.

Lemma logged_effectRun now file e s log :
  wf s -> logged s log -> logged (effectRun now file e s) log.
Proof.
  intros Hwf [Hle Hdone Hfired Hsorted]. unfold effectRun.
  pose proof (runCleanup_timer s Hwf) as Htimer.
  destruct (runCleanup_fields s) as (Hreq & _ & _ & _ & _ & _ & _ & _ & Hids).
  unfold effectBody. destruct file as [f |]; constructor; unfold armed; cbn;
    fold (ids (awaiting (runCleanup s))); rewrite ?Hreq, ?Hids; auto.
  - intros r c Hin [due H]. injection H as _ <-. cbn. apply Hle in Hin. lia.
  - intros r c _ [due H]. rewrite Htimer in H. discriminate.
Qed.

Lemma resume_fields c o s :
  requestIdRef (loadPreview_resume c o s) = requestIdRef s /\
  awaiting (loadPreview_resume c o s) = awaiting s /\
  timer (loadPreview_resume c o s) = timer s /\
  requests (loadPreview_resume c o s) = requests s /\
  cleanup (loadPreview_resume c o s) = cleanup s /\
  error (loadPreview_resume c o s) = error s.
Proof.
  unfold loadPreview_resume. destruct o; destruct (current c s); cbn; repeat split.
Qed.

Lemma settle_fields id o s :
  requestIdRef (settle id o s) = requestIdRef s /\
  timer (settle id o s) = timer s /\
  requests (settle id o s) = requests s /\
  cleanup (settle id o s) = cleanup s /\
  error (settle id o s) = error s.
Proof.
  unfold settle. destruct (find (is_closure id) (awaiting s)) as [c |];
    [| repeat split].
  destruct (resume_fields c o (dropAwaiting id s)) as (-> & _ & -> & -> & -> & ->).
  repeat split.
Qed.

(** A response whose number is not the latest does not pass the guard. *)
Lemma current_latest c s :
  current c s = true -> currentRequestId c = requestIdRef s /\ cancelled c = false.
Proof.
  unfold current. rewrite andb_true_iff, negb_true_iff, Nat.eqb_eq. tauto.
Qed.

Lemma logged_settle id o s log :
  wf s -> logged s log ->
  logged (settle id o s)
         (match accepted s (Settle id o) with
          | Some r => r :: log
          | None => log
          end).
Proof.
  intros Hwf Hlog. unfold settle, accepted.
  destruct (find (is_closure id) (awaiting s)) as [c |] eqn:Hfind; [| exact Hlog].
  destruct (find_closure id _ c Hfind) as [Hin Hid].
  destruct (resume_fields c o (dropAwaiting id s)) as (Hreq & Haw & Htimer & _).
  apply (logged_ext (dropAwaiting id s)); [exact Hreq | now rewrite Haw | exact Htimer |].
  destruct Hlog as [Hle Hdone Hfired Hsorted].
  assert (Hidin : In id (ids (awaiting s))).
  { unfold ids. apply in_map_iff. now exists c. }
  assert (Hdrop : logged (dropAwaiting id s) log).
  { constructor; unfold armed; cbn; auto.
    intros r Hr Hn. apply (Hdone r Hr). now apply ids_filter_incl in Hn. }
  destruct (current c (dropAwaiting id s)) eqn:Hcur; [| exact Hdrop].
  apply current_latest in Hcur. destruct Hcur as [Hlatest _]. cbn in Hlatest.
  destruct Hdrop as [Hle' Hdone' Hfired' Hsorted'].
  constructor; unfold armed; cbn.
  - intros r [<- | Hr]; [cbn; lia | now apply Hle].
  - intros r [<- | Hr]; [apply ids_dropped | now apply Hdone'].
  - intros r c' [<- | Hr] Harmed; [| now apply (Hfired r c')].
    cbn. intros Hc'. destruct (wf_timer_latest s Hwf c' Harmed) as [_ Hnotin].
    apply Hnotin. now rewrite Hc'.
  - constructor; [exact Hsorted |].
    apply List.Forall_forall. intros r Hr. cbn.
    pose proof (Hle r Hr). pose proof (Hdone r Hr) as Hn.
    assert (fst r <> id) by (intros Heq; apply Hn; now rewrite Heq).
    lia.
Qed.

Lemma showsLatest_ext before s s' log :
  previewUrl s' = previewUrl s -> blobs s' = blobs s ->
  showsLatest before s log -> showsLatest before s' log.
Proof.
  intros Hurl Hblobs. unfold showsLatest, displays.
  destruct log as [| [id o] log]; rewrite ?Hurl; [auto |].
  cbn. destruct o; rewrite ?Hurl, ?Hblobs; auto.
Qed.

Lemma advance_display now s :
  previewUrl (advance now s) = previewUrl s /\ blobs (advance now s) = blobs s /\
  console (advance now s) = console s /\ error (advance now s) = error s /\
  requestIdRef (advance now s) = requestIdRef s.
Proof.
  unfold advance. destruct (timer s) as [[due c] |]; [| repeat split].
  destruct (due <=? now)%Z; repeat split.
Qed.

Lemma showsLatest_settle before id o s log :
  wf s -> showsLatest before s log ->
  showsLatest before (settle id o s)
              (match accepted s (Settle id o) with
               | Some r => r :: log
               | None => log
               end).
Proof.
  intros Hwf Hshow. unfold settle, accepted.
  destruct (find (is_closure id) (awaiting s)) as [c |] eqn:Hfind; [| exact Hshow].
  destruct (find_closure id _ c Hfind) as [Hin Hid].
  unfold loadPreview_resume.
  destruct (current c (dropAwaiting id s)) eqn:Hcur.
  - unfold showsLatest, displays. destruct o as [bytes | err]; cbn; [| reflexivity].
    exists (nextUrl s). split; [reflexivity |].
    destruct (capturedPreviewUrl c) as [old |] eqn:Hold.
    + pose proof (wf_captured_fresh s Hwf c old (or_introl Hin) Hold).
      rewrite lookup_delete_ne by lia. apply lookup_insert_eq.
    + apply lookup_insert_eq.
  - destruct o; now apply (showsLatest_ext before s).
Qed.

(** One step inside a file-selection context. *)
Lemma step_accepted f before s tev log :
  match snd tev with
  | Change file _ => file = Some f
  | Settle _ _ => True
  | SelectIndex => False
  end ->
  wf s -> logged s log -> showsLatest before s log ->
  let log' := match accepted (advance (fst tev) s) (snd tev) with
              | Some r => r :: log
              | None => log
              end in
  logged (step s tev) log' /\ showsLatest before (step s tev) log'.
Proof.
  intros Hev Hwf Hlog Hshow. unfold step, handle.
  pose proof (wf_advance (fst tev) s Hwf) as Hwf1.
  pose proof (logged_advance (fst tev) s log Hwf Hlog) as Hlog1.
  destruct (advance_display (fst tev) s) as (Hurl1 & Hblobs1 & _).
  pose proof (showsLatest_ext before s _ log Hurl1 Hblobs1 Hshow) as Hshow1.
  set (s1 := advance (fst tev) s) in *.
  destruct (snd tev) as [file e | id o |]; [| | contradiction].
  - subst file. cbn [accepted]. split; [now apply logged_effectRun |].
    apply (showsLatest_ext before s1); [| | exact Hshow1];
      unfold effectRun, effectBody; cbn; apply runCleanup_fields.
  - split; [now apply logged_settle | now apply showsLatest_settle].
Qed.

Lemma run_accepted f before tevs : forall s log,
  sameFile f tevs -> wf s -> logged s log -> showsLatest before s log ->
  logged (run s tevs) (acceptedLog s tevs log) /\
  showsLatest before (run s tevs) (acceptedLog s tevs log).
Proof.
  induction tevs as [| tev tevs IH]; intros s log Hsame Hwf Hlog Hshow;
    [now split |].
  inversion Hsame as [| ? ? Hev Hsame']; subst.
  cbn [run fold_left acceptedLog].
  destruct (step_accepted f before s tev log Hev Hwf Hlog Hshow) as [Hlog' Hshow'].
  apply IH; auto. now apply wf_step.
Qed.

Lemma highest_In log r : highest log = Some r -> In r log.
Proof.
  revert r. induction log as [| r0 log IH]; intros r; cbn [highest];
    [discriminate |].
  destruct (highest log) as [r' |].
  - destruct (Nat.ltb (fst r0) (fst r')); intros H; injection H as H; subst r.
    + right. now apply IH.
    + now left.
  - intros H. injection H as H. subst r. now left.
Qed.

(** In a log whose numbers grow with time, the latest entry is the highest. *)
Lemma highest_sorted log :
  StronglySorted (fun a b => (fst b < fst a)%nat) log -> highest log = hd_error log.
Proof.
  destruct log as [| r log]; [reflexivity |]. intros Hsorted.
  apply StronglySorted_inv in Hsorted. destruct Hsorted as [_ Hall].
  cbn [highest hd_error]. destruct (highest log) as [r' |] eqn:Hh; [| reflexivity].
  apply highest_In in Hh. rewrite List.Forall_forall in Hall. apply Hall in Hh.
  destruct (Nat.ltb_spec (fst r) (fst r')); [lia | reflexivity].
Qed.

(** A settled promise with an older number changes nothing on display. *)
Lemma settle_superseded id o s :
  (id < requestIdRef s)%nat ->
  accepted s (Settle id o) = None /\
  previewUrl (settle id o s) = previewUrl s /\
  blobs (settle id o s) = blobs s /\
  localLoading (settle id o s) = localLoading s /\
  console (settle id o s) = console s /\
  error (settle id o s) = error s.
Proof.
  intros Hlt. unfold settle, accepted.
  destruct (find (is_closure id) (awaiting s)) as [c |] eqn:Hfind;
    [| repeat split].
  destruct (find_closure id _ c Hfind) as [_ Hid].
  assert (Hcur : current c (dropAwaiting id s) = false).
  { unfold current. cbn. rewrite Hid.
    destruct (Nat.eqb_spec id (requestIdRef s)); [lia | apply andb_false_r]. }
  unfold loadPreview_resume. rewrite Hcur. destruct o; repeat split.
Qed.

(** C1.  Within one file-selection context, entered in any state the loader
    can reach, render responses may arrive in any order: each accepted
    response carries a higher sequence number than every response accepted
    before it, and the image slot shows the outcome of the accepted response
    with the highest number (the object URL made from its bytes, or the
    placeholder if it was a failure); while nothing has been accepted the slot
    is as the context found it.  A response whose number is below the latest
    assigned one is not accepted: it leaves the displayed URL, the live blobs,
    the loading flag, the console and the error field untouched. *)
Theorem displayed_is_highest_accepted :
  forall (pre tevs : list (Z * Event)) (f : string),
    sameFile f tevs ->
    let s0 := run init pre in
    let s := run s0 tevs in
    let log := acceptedLog s0 tevs [] in
    StronglySorted (fun a b => (fst b < fst a)%nat) log /\
    match highest log with
    | Some r => displays s r
    | None => previewUrl s = previewUrl s0
    end /\
    forall id o,
      (id < requestIdRef s)%nat ->
      accepted s (Settle id o) = None /\
      previewUrl (settle id o s) = previewUrl s /\
      blobs (settle id o s) = blobs s /\
      localLoading (settle id o s) = localLoading s /\
      console (settle id o s) = console s /\
      error (settle id o s) = error s.
Proof.
  intros pre tevs f Hsame s0 s log.
  assert (Hwf0 : wf s0) by apply wf_run, wf_init.
  assert (Hlog0 : logged s0 []).
  { constructor; try (intros; contradiction). constructor. }
  destruct (run_accepted f (previewUrl s0) tevs s0 [] Hsame Hwf0 Hlog0 eq_refl)
    as [Hlog Hshow].
  fold s in Hlog, Hshow. fold log in Hlog, Hshow.
  pose proof (logged_sorted s log Hlog) as Hsorted.
  split; [exact Hsorted |]. split.
  - rewrite (highest_sorted log Hsorted).
    unfold showsLatest in Hshow. now destruct log.
  - intros id o. apply settle_superseded.
Qed.

Lemma displayed_is_highest_accepted_witness :
  let e := DEFAULT_EDIT_STATE in
  let f := "photo"%string in
  let tevs := [(0, Change (Some f) e); (200, Change (Some f) (with_crop e (Some [])));
               (400, Settle 2 (Resolved [1; 2])); (450, Settle 1 (Resolved [9]))]%Z in
  sameFile f tevs /\
  acceptedLog init tevs [] = [(2%nat, Resolved [1; 2]%Z)] /\
  displays (run init tevs) (2%nat, Resolved [1; 2]%Z).
Proof.
  intros e f tevs. split; [repeat constructor |]. split; [reflexivity |].
  pose proof (displayed_is_highest_accepted [] tevs f) as H.
  assert (Hsame : sameFile f tevs) by repeat constructor.
  destruct (H Hsame) as (_ & Hshow & _). exact Hshow.
Defined.

(** *** The debounce timer *)

Lemma effectRun_debouncing now file e s :
  wf s ->
  debouncing now file e (effectRun now file e s) /\
  requests (effectRun now file e s) = requests s.
Proof.
  intros Hwf. unfold effectRun.
  pose proof (runCleanup_timer s Hwf) as Htimer.
  destruct (runCleanup_fields s) as (_ & _ & _ & _ & Hreqs & _).
  unfold effectBody, debouncing. destruct file as [f |]; cbn.
  - split; [| exact Hreqs]. eexists. split; [reflexivity |]. cbn. repeat split.
  - split; [exact Htimer | exact Hreqs].
Qed.

Lemma debouncing_quiet last file e s now :
  (now < last + debounceDelay)%Z -> debouncing last file e s -> advance now s = s.
Proof.
  intros Hnow Hdeb. unfold advance, debouncing in *.
  destruct file as [f |].
  - destruct Hdeb as (c & -> & _).
    destruct (Z.leb_spec (last + debounceDelay) now); [lia | reflexivity].
  - now rewrite Hdeb.
Qed.

Lemma debouncing_ext last file e s s' :
  timer s' = timer s -> requestIdRef s' = requestIdRef s -> cleanup s' = cleanup s ->
  debouncing last file e s -> debouncing last file e s'.
Proof.
  intros Ht Hr Hc. unfold debouncing. now rewrite Ht, Hr, Hc.
Qed.

(** During a burst nothing is sent, and the timer of its last change stays
    armed. *)
Lemma burst_debouncing tevs : forall last file e s,
  burst last tevs -> wf s -> debouncing last file e s ->
  let '(tN, fileN, eN) := lastChange last file e tevs in
  debouncing tN fileN eN (run s tevs) /\
  requests (run s tevs) = requests s /\
  wf (run s tevs).
Proof.
  induction tevs as [| [t ev] tevs IH]; intros last file e s Hburst Hwf Hdeb.
  - cbn. auto.
  - cbn [burst] in Hburst. destruct Hburst as [[Hlo Hhi] Hburst].
    cbn [run fold_left]. fold (run (step s (t, ev)) tevs).
    assert (Hstep : step s (t, ev) = handle t ev s).
    { unfold step. cbn [fst snd]. now rewrite (debouncing_quiet last file e s t). }
    pose proof (wf_step s (t, ev) Hwf) as Hwf'.
    rewrite Hstep in *. destruct ev as [file' e' | id o |]; cbn [lastChange handle] in *.
    + destruct (effectRun_debouncing t file' e' s Hwf) as [Hdeb' Hreqs].
      specialize (IH t file' e' _ Hburst Hwf' Hdeb').
      destruct (lastChange t file' e' tevs) as [[tN fileN] eN].
      now rewrite <- Hreqs.
    + destruct (settle_fields id o s) as (Hr & Ht & Hreqs & Hc & _).
      pose proof (debouncing_ext last file e s _ Ht Hr Hc Hdeb) as Hdeb'.
      specialize (IH last file e _ Hburst Hwf' Hdeb').
      destruct (lastChange last file e tevs) as [[tN fileN] eN].
      now rewrite <- Hreqs.
    + assert (Hdeb' : debouncing last file e (setSelectedIndex s))
        by (now apply (debouncing_ext last file e s)).
      specialize (IH last file e _ Hburst Hwf' Hdeb').
      destruct (lastChange last file e tevs) as [[tN fileN] eN].
      exact IH.
Qed.

Lemma advance_idem now s : advance now (advance now s) = advance now s.
Proof.
  unfold advance at 2 3. destruct (timer s) as [[due c] |] eqn:Htimer.
  - destruct (due <=? now)%Z eqn:Hdue; [reflexivity |].
    unfold advance. now rewrite Htimer, Hdue.
  - unfold advance. now rewrite Htimer.
Qed.

(** C2.  A burst opens with a change at time [t] in any state the loader
    can reach, and every later event of it (a further qualifying change, or a
    response or selection action arriving meanwhile) comes sooner than the
    debounce delay after the change before it.  Whatever the horizon [T], the
    burst adds at most one call of [getPreview] to those made before it: none
    while [T] is short of the delay after the last change (or if that change
    left no file selected), and otherwise exactly one, made one delay after
    the last change, for the file and with the edit state of that change. *)
Theorem burst_sends_one_request :
  forall (pre tevs : list (Z * Event)) (t T : Z) (file : option string)
         (e : EditState),
    burst t tevs ->
    let s0 := advance t (run init pre) in
    let s := run s0 ((t, Change file e) :: tevs) in
    let '(tN, fileN, eN) := lastChange t file e tevs in
    requests (advance T s) =
    match fileN with
    | Some f =>
      if (tN + debounceDelay <=? T)%Z
      then requestOf tN (requestIdRef s) f eN :: requests s0
      else requests s0
    | None => requests s0
    end.
Proof.
  intros pre tevs t T file e Hburst s0 s.
  assert (Hwf0 : wf s0) by (apply wf_advance, wf_run, wf_init).
  subst s. cbn [run fold_left]. fold (run (step s0 (t, Change file e)) tevs).
  assert (Hstep : step s0 (t, Change file e) = effectRun t file e s0).
  { unfold step, handle. cbn [fst snd]. unfold s0. now rewrite advance_idem. }
  rewrite Hstep.
  destruct (effectRun_debouncing t file e s0 Hwf0) as [Hdeb Hreqs].
  pose proof (burst_debouncing tevs t file e _ Hburst
                (wf_effectRun t file e s0 Hwf0) Hdeb) as H.
  destruct (lastChange t file e tevs) as [[tN fileN] eN].
  destruct H as (HdebN & HreqsN & _).
  set (sN := run (effectRun t file e s0) tevs) in *.
  unfold debouncing in HdebN. unfold advance.
  destruct fileN as [f |].
  - destruct HdebN as (c & Htimer & Hid & Hf & He & _). rewrite Htimer.
    destruct (tN + debounceDelay <=? T)%Z; [| congruence].
    cbn. unfold requestOf. congruence.
  - rewrite HdebN. congruence.
Qed.

Lemma burst_sends_one_request_witness :
  let e0 := DEFAULT_EDIT_STATE in
  let e1 := with_crop e0 (Some [("x", 1)]%string) in
  let e2 := with_crop e0 (Some [("x", 2)]%string) in
  let f := "photo"%string in
  let tevs := [(50, Change (Some f) e1); (80, Change (Some f) e2)]%Z in
  burst 0 tevs /\
  requests (advance 1000 (run (advance 0 (run init [])) ((0%Z, Change (Some f) e0) :: tevs)))
  = [requestOf 80 3 f e2].
Proof.
  intros e0 e1 e2 f tevs.
  assert (Hburst : burst 0 tevs).
  { cbn. unfold debounceDelay. repeat split; lia. }
  split; [exact Hburst |].
  exact (burst_sends_one_request [] tevs 0 1000 (Some f) e0 Hburst).
Defined.

(** Scenario D with the 150 ms delay of the component: changes at 0, 50 and
    80 ms send one request, at 230 ms. *)
Example scenario_D_three_changes :
  let e := DEFAULT_EDIT_STATE in
  let f := Some "photo"%string in
  let s := run init [(0, Change f e); (50, Change f e); (80, Change f e)]%Z in
  requests (advance 229 s) = [] /\
  map sentAt (requests (advance 230 s)) = [230%Z] /\
  map sentAt (requests (advance 5000 s)) = [230%Z].
Proof. repeat split. Qed.

(** *** Failures *)

(** The failure is not exposed.  When the only request in flight is
    rejected, the store's error field, the only failure state the interface
    renders, is still empty afterwards, so the three parts of the claim do
    not hold together. *)
Lemma render_failure_not_exposed :
  ~ (forall (s : State) (id : nat) (err : string) (c : Closure),
       find (is_closure id) (awaiting s) = Some c ->
       current c s = true ->
       let s' := settle id (Rejected err) s in
       (previewUrl s' = previewUrl s \/ shown s' = LoadingText) /\
       error s' <> None /\
       (forall T, requests (advance T s') = requests (advance T s))).
Proof.
  intros H.
  pose (s := advance 150 (run init [(0%Z, Change (Some "photo"%string) DEFAULT_EDIT_STATE)])).
  destruct (H s 1%nat "DecodeError"%string
              {| currentRequestId := 1; cancelled := false; fileId := "photo";
                 edits := DEFAULT_EDIT_STATE; capturedPreviewUrl := None |})
    as (_ & Herr & _); try reflexivity.
  apply Herr. reflexivity.
Qed.

(** C6, on the code.  When a request that is still current fails, the catch
    branch of [loadPreview] clears the image slot, so the placeholder is
    shown, drops the loading flag and issues no further request: the timer
    and the calls made by any later time are what they would have been.  It
    writes the failure to the console and nowhere else: the store's error
    field, which [setError] fills when opening a folder fails and which the
    interface renders, is left as it was, so the failure is not exposed. *)
Theorem render_failure_clears_display :
  forall (s : State) (id : nat) (err : string) (c : Closure),
    find (is_closure id) (awaiting s) = Some c ->
    current c s = true ->
    let s' := settle id (Rejected err) s in
    previewUrl s' = None /\
    shown s' = LoadingText /\
    localLoading s' = false /\
    console s' = "Preview failed:"%string :: console s /\
    error s' = error s /\
    timer s' = timer s /\
    requests s' = requests s /\
    (forall T, requests (advance T s') = requests (advance T s)).
Proof.
  intros s id err c Hfind Hcur s'. subst s'. unfold settle. rewrite Hfind.
  assert (Hcur' : current c (dropAwaiting id s) = true) by exact Hcur.
  unfold loadPreview_resume. rewrite Hcur'. unfold shown, advance. cbn.
  repeat split.
  intros T. destruct (timer s) as [[due c'] |]; [| reflexivity].
  now destruct (due <=? T)%Z.
Qed.

Lemma render_failure_clears_display_witness :
  let s := advance 150 (run init [(0%Z, Change (Some "photo"%string) DEFAULT_EDIT_STATE)]) in
  let c := {| currentRequestId := 1; cancelled := false; fileId := "photo";
              edits := DEFAULT_EDIT_STATE; capturedPreviewUrl := None |} in
  (find (is_closure 1) (awaiting s) = Some c /\ current c s = true) /\
  let s' := settle 1 (Rejected "DecodeError") s in
  previewUrl s' = None /\
  shown s' = LoadingText /\
  localLoading s' = false /\
  console s' = "Preview failed:"%string :: console s /\
  error s' = error s /\
  timer s' = timer s /\
  requests s' = requests s /\
  (forall T, requests (advance T s') = requests (advance T s)).
Proof.
  intros s c. split; [split; reflexivity |].
  apply (render_failure_clears_display s 1%nat "DecodeError"%string c);
    reflexivity.
Defined.

End PreviewLoader.

(** ** Compare mode *)

Section CompareMode.
Import Compare.

Lemma runCleanup_requests s :
  requests (runCleanup s) = requests s /\ file (runCleanup s) = file s /\
  compareMode (runCleanup s) = compareMode s /\ beforeUrl (runCleanup s) = beforeUrl s.
Proof. unfold runCleanup. destruct (cleanup s); repeat split. Qed.

Lemma settle_requests h o s : requests (settle h o s) = requests s.
Proof.
  unfold settle. destruct (find (is_closure h) (awaiting s)) as [c |]; [| reflexivity].
  unfold loadBefore_resume. destruct o; [destruct (cancelled c) |]; reflexivity.
Qed.

Lemma effectBody_on s f :
  file s = Some f -> compareMode s <> off ->
  requests (effectBody s)
  = {| reqFile := f; reqEdits := DEFAULT_EDIT_STATE; maxSize := 1600 |} :: requests s /\
  compareMode (effectBody s) = compareMode s.
Proof.
  intros Hf Hm. unfold effectBody. rewrite Hf.
  destruct (compareMode s) eqn:Hmode; [congruence | |]; cbn; auto.
Qed.

Lemma effectBody_off s :
  compareMode s = off ->
  requests (effectBody s) = requests s /\ beforeUrl (effectBody s) = None /\
  compareMode (effectBody s) = off.
Proof.
  intros Hm. unfold effectBody. rewrite Hm.
  destruct (file s); destruct (beforeUrl s) eqn:Hb; cbn; auto.
Qed.

(** C5, as stated, fails: after split is entered and its response cached,
    pressing the compare button on to toggle, to off and to split again leaves
    three requests made for the same file, not one. *)
Lemma compare_reentry_fetches_again :
  ~ (forall (f : string) (evs : list Event),
       noFileChange evs ->
       let s1 := step (init (Some f)) CompareButton in
       compareMode s1 = split /\
       requests s1 = [{| reqFile := f; reqEdits := DEFAULT_EDIT_STATE;
                         maxSize := 1600 |}] /\
       requests (run s1 evs) = requests s1).
Proof.
  intros H.
  destruct (H "photo"%string
              [Settle 0 (Resolved [1%Z]); CompareButton; CompareButton; CompareButton])
    as (_ & _ & Hsame); [repeat constructor |].
  vm_compute in Hsame. discriminate Hsame.
Qed.

(** C5, amended.  With a file selected, a press of the compare button that
    lands on split or on toggle makes exactly one call of [getPreview], for
    that file with the default edit state, whether or not a "before" URL is
    cached; a press that lands on off makes none and drops the cached URL; a
    settled response makes none.  So the first entry into split makes exactly
    one request, and every later entry into split or toggle makes one more. *)
Theorem compare_button_fetches_before :
  forall (s : State) (f : string),
    file s = Some f ->
    let s' := step s CompareButton in
    match compareMode s' with
    | off => requests s' = requests s /\ beforeUrl s' = None
    | split | toggle =>
      requests s' = {| reqFile := f; reqEdits := DEFAULT_EDIT_STATE;
                       maxSize := 1600 |} :: requests s
    end /\
    compareMode s' = cycle (compareMode s) /\
    (forall h o, requests (settle h o s') = requests s').
Proof.
  intros s f Hfile s'. subst s'. cbn [step]. unfold effectRun.
  set (s1 := setCompareMode (cycle (compareMode s)) s).
  destruct (runCleanup_requests s1) as (Hreqs & Hf & Hmode & Hurl).
  assert (Hf1 : file (runCleanup s1) = Some f) by (now rewrite Hf).
  assert (Hm1 : compareMode (runCleanup s1) = cycle (compareMode s))
    by (now rewrite Hmode).
  assert (Hreqs' : requests (runCleanup s1) = requests s) by exact Hreqs.
  rewrite <- Hreqs'.
  assert (Hsettle : forall h o,
            requests (settle h o (effectBody (runCleanup s1)))
            = requests (effectBody (runCleanup s1)))
    by (intros; apply settle_requests).
  destruct (cycle (compareMode s)) eqn:Hc.
  - destruct (effectBody_off _ Hm1) as (Hr & Hb & Hm).
    rewrite Hm. auto.
  - destruct (effectBody_on _ f Hf1) as (Hr & Hm); [congruence |].
    rewrite Hm, Hm1. auto.
  - destruct (effectBody_on _ f Hf1) as (Hr & Hm); [congruence |].
    rewrite Hm, Hm1. auto.
Qed.

Lemma compare_button_fetches_before_witness :
  let f := "photo"%string in
  let s := run (init (Some f)) [CompareButton; Settle 0 (Resolved [1%Z])] in
  file s = Some f /\
  beforeUrl s = Some 0%nat /\
  compareMode (step s CompareButton) = toggle /\
  requests (step s CompareButton)
  = {| reqFile := f; reqEdits := DEFAULT_EDIT_STATE; maxSize := 1600 |} :: requests s.
Proof.
  intros f s. split; [reflexivity |]. split; [reflexivity |].
  split; [reflexivity |].
  pose proof (compare_button_fetches_before s f eq_refl) as H.
  destruct H as (H & _). exact H.
Defined.

End CompareMode.

(** * Further properties of the code *)

(** ** Pointer gestures *)

Section Gestures.
Import Viewport.

Lemma leb_le a b : leb a b = true <-> a <= b.
Proof. apply Qle_bool_iff. Qed.

Lemma geb_ge a b : geb a b = true <-> b <= a.
Proof. apply Qle_bool_iff. Qed.

Lemma gtb_gt a b : gtb a b = true <-> b < a.
Proof. apply ltb_lt. Qed.

Lemma gtb_le a b : gtb a b = false <-> a <= b.
Proof.
  unfold gtb, ltb. rewrite negb_false_iff. apply Qle_bool_iff.
Qed.


(** The hit test never answers [create]. *)
Lemma hitTest_not_create mouseX mouseY r : hitTest mouseX mouseY r <> Some create.
Proof.
  unfold hitTest.
  repeat match goal with
         | |- context [if ?b then _ else _] => destruct b
         end; discriminate.
Qed.

(** X1.  The hit test of a pointer press on an existing crop box is sound:
    a corner answer means the pointer is within 15 px of both edges meeting
    at that corner, a move answer means the pointer is on the box, and no
    answer means the pointer is off the box; the test never answers
    [create]. *)
Theorem hitTest_sound :
  forall (mouseX mouseY : Q) (r : Rect),
    match hitTest mouseX mouseY r with
    | Some resize_nw =>
      x r - 15 <= mouseX <= x r + 15 /\ y r - 15 <= mouseY <= y r + 15
    | Some resize_ne =>
      x r + width r - 15 <= mouseX <= x r + width r + 15 /\
      y r - 15 <= mouseY <= y r + 15
    | Some resize_sw =>
      x r - 15 <= mouseX <= x r + 15 /\
      y r + height r - 15 <= mouseY <= y r + height r + 15
    | Some resize_se =>
      x r + width r - 15 <= mouseX <= x r + width r + 15 /\
      y r + height r - 15 <= mouseY <= y r + height r + 15
    | Some move =>
      x r <= mouseX <= x r + width r /\ y r <= mouseY <= y r + height r
    | Some create => False
    | None =>
      ~ (x r <= mouseX <= x r + width r /\ y r <= mouseY <= y r + height r)
    end.
Proof.
  intros mouseX mouseY r. unfold hitTest.
  repeat match goal with
         | |- context [if ?b then _ else _] => destruct b eqn:?
         end;
    repeat match goal with
           | H : _ && _ = true |- _ => apply andb_true_iff in H; destruct H
           | H : geb _ _ = true |- _ => apply geb_ge in H
           | H : leb _ _ = true |- _ => apply leb_le in H
           end; auto.
  intros [[Hx1 Hx2] [Hy1 Hy2]].
  pose proof (proj2 (geb_ge _ _) Hx1) as B1.
  pose proof (proj2 (leb_le _ _) Hx2) as B2.
  pose proof (proj2 (geb_ge _ _) Hy1) as B3.
  pose proof (proj2 (leb_le _ _) Hy2) as B4.
  rewrite B1, B2, B3, B4 in *. discriminate.
Qed.

Lemma hitTest_sound_witness :
  let r := {| x := 100; y := 100; width := 200; height := 150 |} in
  hitTest 500 400 r = None /\
  ~ (x r <= 500 <= x r + width r /\ y r <= 400 <= y r + height r).
Proof.
  intros r. split; [reflexivity |].
  exact (hitTest_sound 500 400 r).
Defined.





Lemma handleMouseUp_panOffset s : panOffset (handleMouseUp s) = panOffset s.
Proof.
  unfold handleMouseUp.
  destruct (isDraggingCrop s && _); [| destruct (cropDragMode s) as [[] |]];
    reflexivity.
Qed.

(** X3.  Releasing the pointer ends every gesture: no pan and no crop drag
    is left running, a second release (the pointer leaving the area) changes
    nothing more, and pointer moves that follow change nothing at all.  The
    release itself never touches zoom, pan or the stored edits. *)
Theorem release_ends_gesture :
  forall (s : State) (c : option DOMRect) (e : MouseEvent),
    let s' := handleMouseUp s in
    isPanning s' = false /\ isDraggingCrop s' = false /\
    cropDragMode s' = None /\ cropStart s' = None /\
    zoomLevel s' = zoomLevel s /\ panOffset s' = panOffset s /\
    editStates s' = editStates s /\ cropMode s' = cropMode s /\
    handleMouseUp s' = s' /\
    handleMouseMove c e s' = s'.
Proof.
  intros s c e s'. subst s'. unfold handleMouseUp.
  destruct (isDraggingCrop s && _); [| destruct (cropDragMode s) as [[] |]];
    cbn; repeat split; destruct s; reflexivity.
Qed.

(** X4.  What a release does to the crop box.  Ending a create drag keeps
    the box only if it is more than 10 px wide and more than 10 px high;
    ending a move or a resize drag always keeps it. *)
Theorem release_keeps_or_discards :
  forall (s : State) (m : CropDragMode) (r : Rect),
    isDraggingCrop s = true -> cropDragMode s = Some m -> cropRect s = Some r ->
    match m with
    | create =>
      (10 < width r /\ 10 < height r -> cropRect (handleMouseUp s) = Some r) /\
      (width r <= 10 \/ height r <= 10 -> cropRect (handleMouseUp s) = None)
    | _ => cropRect (handleMouseUp s) = Some r
    end.
Proof.
  intros s m r Hdrag Hmode Hrect. unfold handleMouseUp.
  rewrite Hdrag, Hmode, Hrect. cbn [andb].
  destruct m; cbn;
    try (destruct (gtb (width r) 10 && gtb (height r) 10); cbn; exact Hrect).
  split.
  - intros [Hw Hh]. apply gtb_gt in Hw, Hh. rewrite Hw, Hh. cbn. exact Hrect.
  - intros Hsmall.
    assert (Hb : gtb (width r) 10 && gtb (height r) 10 = false).
    { apply andb_false_iff. destruct Hsmall as [H | H]; apply gtb_le in H; auto. }
    rewrite Hb. reflexivity.
Qed.

Lemma release_keeps_or_discards_witness :
  let c := {| dleft := 0; dtop := 0; dwidth := 800; dheight := 600 |} in
  let s := run init
             [CropToggle;
              MouseDown (Some c) {| clientX := 100; clientY := 100 |};
              MouseMove (Some c) {| clientX := 300; clientY := 110 |}] in
  let r := {| x := 100; y := 100; width := 200; height := 10 |} in
  (isDraggingCrop s = true /\ cropDragMode s = Some create /\ cropRect s = Some r) /\
  (10 < width r /\ 10 < height r -> cropRect (handleMouseUp s) = Some r) /\
  (width r <= 10 \/ height r <= 10 -> cropRect (handleMouseUp s) = None).
Proof.
  intros c s r. split; [repeat split |].
  apply (release_keeps_or_discards s create r); reflexivity.
Defined.

(** X5.  A click in crop mode, a press and a release with no move between.
    On a handle or on the body of the crop box it leaves the box as it was;
    anywhere else, or with no box yet, it leaves no box at all: clicking off
    the box removes it. *)
Theorem click_in_crop_mode :
  forall (s : State) (c : DOMRect) (e : MouseEvent),
    cropMode s = true ->
    let hit :=
      match cropRect s with
      | Some r =>
        if gtb (width r) 0 && gtb (height r) 0
        then hitTest (clientX e - dleft c) (clientY e - dtop c) r else None
      | None => None
      end in
    cropRect (handleMouseUp (handleMouseDown (Some c) e s))
    = match hit with
      | Some _ => cropRect s
      | None => None
      end.
Proof.
  intros s c e Hcrop hit. subst hit. unfold handleMouseDown. rewrite Hcrop.
  destruct (cropRect s) as [r |] eqn:Hrect.
  - destruct (gtb (width r) 0 && gtb (height r) 0).
    + pose proof (hitTest_not_create (clientX e - dleft c) (clientY e - dtop c) r) as Hs.
      destruct (hitTest (clientX e - dleft c) (clientY e - dtop c) r) as [m |].
      * destruct m; try congruence; unfold handleMouseUp; cbn;
          rewrite ?Hrect; cbn;
          destruct (gtb (width r) 10 && gtb (height r) 10); cbn;
          rewrite ?Hrect; reflexivity.
      * reflexivity.
    + reflexivity.
  - reflexivity.
Qed.

Lemma click_in_crop_mode_witness :
  let c := {| dleft := 0; dtop := 0; dwidth := 800; dheight := 600 |} in
  let s := run init
             [CropToggle;
              MouseDown (Some c) {| clientX := 100; clientY := 100 |};
              MouseMove (Some c) {| clientX := 300; clientY := 250 |};
              MouseUp] in
  let e := {| clientX := 500; clientY := 400 |} in
  cropMode s = true /\
  cropRect s = Some {| x := 100; y := 100; width := 200; height := 150 |} /\
  cropRect (handleMouseUp (handleMouseDown (Some c) e s)) = None.
Proof.
  intros c s e. split; [reflexivity |]. split; [reflexivity |].
  exact (click_in_crop_mode s c e eq_refl).
Defined.



Lemma run_zoom_range_eq path : forall s,
  zoomLevel (run s (moves path)) = zoomLevel s.
Proof.
  induction path as [| [c e] path IH]; intros s; [reflexivity |].
  cbn [moves map run fold_left fst snd step]. fold (moves path).
  fold (run (handleMouseMove (Some c) e s) (moves path)).
  rewrite IH. apply handleMouseMove_zoomLevel.
Qed.

(** While panning, each pointer move adds its displacement to the pan. *)
Lemma pan_moves path : forall (s : State) (bx by_ cx0 cy0 : Q),
  cropMode s = false -> isPanning s = true ->
  px (panOffset s) - px (lastPanPos s) == bx - cx0 ->
  py (panOffset s) - py (lastPanPos s) == by_ - cy0 ->
  let s' := run s (moves path) in
  cropMode s' = false /\ isPanning s' = true /\
  px (panOffset s') - px (lastPanPos s') == bx - cx0 /\
  py (panOffset s') - py (lastPanPos s') == by_ - cy0.
Proof.
  induction path as [| [c e] path IH]; intros s bx by_ cx0 cy0 Hcrop Hpan Hx Hy.
  - cbn. auto.
  - cbn [moves map run fold_left fst snd step].
    apply IH; unfold handleMouseMove; rewrite Hcrop, Hpan, andb_false_r; cbn;
      auto; lra.
Qed.

(** X7.  A pan follows the pointer.  Outside crop mode and zoomed in beyond
    1, a press followed by any path of moves shifts the pan offset by exactly
    the displacement from the press to the last pointer position, whatever
    the path in between; the release keeps that offset. *)
Theorem pan_follows_pointer :
  forall (s : State) (c : option DOMRect) (p0 : MouseEvent)
         (path : list (DOMRect * MouseEvent)) (c1 : DOMRect) (e1 : MouseEvent),
    cropMode s = false -> 1 < zoomLevel s ->
    let s1 := handleMouseDown c p0 s in
    let s2 := run s1 (moves (path ++ [(c1, e1)])) in
    px (panOffset s2) == px (panOffset s) + (clientX e1 - clientX p0) /\
    py (panOffset s2) == py (panOffset s) + (clientY e1 - clientY p0) /\
    zoomLevel s2 = zoomLevel s /\
    panOffset (handleMouseUp s2) = panOffset s2.
Proof.
  intros s c p0 path c1 e1 Hcrop Hzoom s1 s2.
  assert (Hs1 : s1 = setLastPanPos {| px := clientX p0; py := clientY p0 |}
                       (setIsPanning true s)).
  { subst s1. unfold handleMouseDown. rewrite Hcrop.
    apply gtb_gt in Hzoom. now rewrite Hzoom. }
  subst s2. unfold moves. rewrite map_app, run_app. fold (moves path).
  destruct (pan_moves path s1 (px (panOffset s)) (py (panOffset s))
              (clientX p0) (clientY p0))
    as (Hcrop' & Hpan' & Hx & Hy); try (rewrite Hs1; cbn; auto; lra).
  set (s' := run s1 (moves path)) in *.
  cbn [map run fold_left fst snd step]. unfold handleMouseMove.
  rewrite Hcrop', Hpan', andb_false_r. cbn [andb].
  split; [cbn; lra |]. split; [cbn; lra |].
  split; [| apply handleMouseUp_panOffset].
  cbn. unfold s'. rewrite (run_zoom_range_eq path s1). now rewrite Hs1.
Qed.

Lemma pan_follows_pointer_witness :
  let s := run init [ZoomInButton; ZoomInButton] in
  let c := {| dleft := 10; dtop := 20; dwidth := 800; dheight := 600 |} in
  let p0 := {| clientX := 400; clientY := 300 |} in
  let path := [(c, {| clientX := 410; clientY := 290 |});
               (c, {| clientX := 90; clientY := 500 |})] in
  let e1 := {| clientX := 450; clientY := 280 |} in
  (cropMode s = false /\ 1 < zoomLevel s) /\
  let s2 := run (handleMouseDown (Some c) p0 s) (moves (path ++ [(c, e1)])) in
  px (panOffset s2) == px (panOffset s) + (clientX e1 - clientX p0) /\
  py (panOffset s2) == py (panOffset s) + (clientY e1 - clientY p0) /\
  zoomLevel s2 = zoomLevel s /\
  panOffset (handleMouseUp s2) = panOffset s2.
Proof.
  intros s c p0 path e1. split; [split; reflexivity |].
  apply (pan_follows_pointer s (Some c) p0 path c e1); reflexivity.
Defined.

(** X8.  At zoom 1 or below and outside crop mode a press changes nothing
    at all, whatever the state: it starts no pan and no crop drag, so the
    events that follow it act as if it had not happened.  If, moreover, no
    pan is under way already ([isPanning] is false, as it is after every
    release), then a press, any pointer path and a release leave the whole
    view state as the release alone would: no pan, no zoom and no crop
    change; in particular, right after a release such a gesture changes
    nothing. *)
Theorem no_pan_at_fit_zoom :
  forall (s : State) (c : option DOMRect) (p0 : MouseEvent),
    cropMode s = false -> zoomLevel s <= 1 ->
    handleMouseDown c p0 s = s /\
    (forall evs : list Event, run s (MouseDown c p0 :: evs) = run s evs) /\
    (forall path : list (DOMRect * MouseEvent),
       isPanning s = false ->
       run s (MouseDown c p0 :: moves path ++ [MouseUp]) = handleMouseUp s) /\
    (forall path : list (DOMRect * MouseEvent),
       run (handleMouseUp s) (MouseDown c p0 :: moves path ++ [MouseUp])
       = handleMouseUp s).
Proof.
  intros s c p0 Hcrop Hzoom.
  assert (Hdown : forall t, cropMode t = false -> zoomLevel t = zoomLevel s ->
                            handleMouseDown c p0 t = t).
  { intros t Hc Hz. unfold handleMouseDown. rewrite Hc, Hz.
    apply gtb_le in Hzoom. now rewrite Hzoom. }
  assert (Hmoves : forall t path, cropMode t = false -> isPanning t = false ->
                                  run t (moves path) = t).
  { intros t path Hc Hp. induction path as [| [c' e'] path IH]; [reflexivity |].
    cbn [moves map run fold_left fst snd step].
    assert (Hmove : handleMouseMove (Some c') e' t = t).
    { unfold handleMouseMove. now rewrite Hc, Hp, andb_false_r. }
    rewrite Hmove. exact IH. }
  assert (Hgesture : forall t path, cropMode t = false -> zoomLevel t = zoomLevel s ->
                       isPanning t = false ->
                       run t (MouseDown c p0 :: moves path ++ [MouseUp]) = handleMouseUp t).
  { intros t path Hc Hz Hp. cbn [run fold_left step].
    fold (run (handleMouseDown c p0 t) (moves path ++ [MouseUp])).
    rewrite (Hdown t Hc Hz), run_app, (Hmoves t path Hc Hp). reflexivity. }
  split; [now apply Hdown |].
  split.
  { intros evs. cbn [run fold_left step]. now rewrite (Hdown s Hcrop eq_refl). }
  split.
  { intros path Hpan. now apply Hgesture. }
  intros path.
  assert (Hup : forall t, cropMode (handleMouseUp t) = cropMode t /\
                          zoomLevel (handleMouseUp t) = zoomLevel t /\
                          isPanning (handleMouseUp t) = false /\
                          handleMouseUp (handleMouseUp t) = handleMouseUp t).
  { intros t. unfold handleMouseUp.
    destruct (isDraggingCrop t && _); [now repeat split |].
    destruct (cropDragMode t) as [[] |]; now repeat split. }
  destruct (Hup s) as (Hc & Hz & Hp & Hidem).
  rewrite (Hgesture (handleMouseUp s) path); [exact Hidem | | exact Hz | exact Hp].
  now rewrite Hc.
Qed.

Lemma no_pan_at_fit_zoom_witness :
  let c := {| dleft := 0; dtop := 0; dwidth := 800; dheight := 600 |} in
  let p0 := {| clientX := 400; clientY := 300 |} in
  let path := [(c, {| clientX := 410; clientY := 290 |})] in
  (cropMode init = false /\ zoomLevel init <= 1 /\ isPanning init = false) /\
  handleMouseDown (Some c) p0 init = init /\
  run init (MouseDown (Some c) p0 :: moves path ++ [MouseUp]) = handleMouseUp init.
Proof.
  intros c p0 path.
  assert (Hcrop : cropMode init = false) by reflexivity.
  assert (Hzoom : zoomLevel init <= 1) by discriminate.
  assert (Hpan : isPanning init = false) by reflexivity.
  split; [repeat split; assumption |].
  destruct (no_pan_at_fit_zoom init (Some c) p0 Hcrop Hzoom) as (H1 & _ & H3 & _).
  split; [exact H1 | exact (H3 path Hpan)].
Defined.

Import ViewportInv.

Lemma quarter_succ n : quarter (n + 1) == quarter n + 0.25.
Proof.
  unfold quarter. rewrite inject_Z_plus. change (inject_Z 1) with 1.
  set (q := inject_Z n). field.
Qed.
Lemma quarter_pred n : quarter (n - 1) == quarter n - 0.25.
Proof.
  pose proof (quarter_succ (n - 1)) as H.
  replace (n - 1 + 1)%Z with n in H by lia.
  rewrite H. lra.
Qed.
Lemma quarter_le n : (n <= 20)%Z -> quarter n <= 5.
Proof.
  intros Hn. unfold quarter. apply Qle_shift_div_r; [reflexivity |].
  change (5 * 4) with (inject_Z 20). now rewrite <- Zle_Qle.
Qed.
Lemma quarter_ge n : (2 <= n)%Z -> 0.5 <= quarter n.
Proof.
  intros Hn. unfold quarter. apply Qle_shift_div_l; [reflexivity |].
  apply Qle_trans with (inject_Z 2); [discriminate |]. now rewrite <- Zle_Qle.
Qed.

(** X9.  The zoom buttons move in quarter steps and undo each other.  As
    long as the wheel is not turned, the zoom level is a whole number of
    quarters between 0.5 and 5.  From such a level [n / 4], zoom in goes to
    the next quarter and zoom out to the previous one, stopping at 5 and at
    0.5; so zoom in then zoom out returns to the same level from any quarter
    below 5, and zoom out then zoom in from any quarter above 0.5. *)
Theorem zoom_buttons_inverse :
  (forall evs : list Event,
     forallb noWheel evs = true -> onQuarters (zoomLevel (run init evs))) /\
  (forall (s : State) (n : Z),
     (2 <= n <= 20)%Z -> zoomLevel s == quarter n ->
     zoomLevel (zoomInClick s) == quarter (Z.min 20 (n + 1)) /\
     zoomLevel (zoomOutClick s) == quarter (Z.max 2 (n - 1)) /\
     ((n <= 19)%Z -> zoomLevel (zoomOutClick (zoomInClick s)) == zoomLevel s) /\
     ((3 <= n)%Z -> zoomLevel (zoomInClick (zoomOutClick s)) == zoomLevel s)).
Proof.
  assert (Hin : forall s n, (2 <= n <= 20)%Z -> zoomLevel s == quarter n ->
                  zoomLevel (zoomInClick s) == quarter (Z.min 20 (n + 1))).
  { intros s n Hn Hz. unfold zoomInClick. cbn [zoomLevel setZoomLevel].
    unfold Math.min. rewrite Hz.
    destruct (Z.eq_dec n 20%Z) as [-> | Hne].
    - now vm_compute.
    - rewrite Z.min_r by lia. rewrite quarter_succ. apply Q.min_r.
      rewrite <- quarter_succ. apply quarter_le. lia. }
  assert (Hout : forall s n, (2 <= n <= 20)%Z -> zoomLevel s == quarter n ->
                   zoomLevel (zoomOutClick s) == quarter (Z.max 2 (n - 1))).
  { intros s n Hn Hz. unfold zoomOutClick. cbn [zoomLevel setZoomLevel].
    unfold Math.max. rewrite Hz.
    destruct (Z.eq_dec n 2%Z) as [-> | Hne].
    - now vm_compute.
    - rewrite Z.max_r by lia. rewrite quarter_pred. apply Q.max_r.
      rewrite <- quarter_pred. apply quarter_ge. lia. }
  split.
  - intros evs. induction evs as [| ev evs IH] using rev_ind; intros Hevs.
    + exists 4%Z. split; [lia | reflexivity].
    + rewrite forallb_app in Hevs. apply andb_true_iff in Hevs as [Hevs Hev].
      cbn [forallb] in Hev. rewrite andb_true_r in Hev.
      destruct (IH Hevs) as (n & Hn & Hz).
      rewrite run_app. cbn [run fold_left].
      fold (run init evs). set (s := run init evs) in *.
      destruct ev; cbn [step]; try discriminate.
      * exists n. now rewrite handleMouseDown_zoomLevel.
      * exists n. now rewrite handleMouseMove_zoomLevel.
      * exists n. now rewrite handleMouseUp_zoomLevel.
      * exists n. now rewrite handleMouseUp_zoomLevel.
      * unfold handleDoubleClick. destruct (cropMode s); cbn [negb].
        -- now exists n.
        -- destruct (eqb (zoomLevel s) 1).
           ++ exists 8%Z. split; [lia | reflexivity].
           ++ exists 4%Z. split; [lia | reflexivity].
      * exists (Z.max 2 (n - 1)). split; [lia | now apply Hout].
      * exists (Z.min 20 (n + 1)). split; [lia | now apply Hin].
      * exists 4%Z. split; [lia | reflexivity].
      * exists n. now destruct (cropMode s).
      * exists n. destruct (cropMode s); [now rewrite applyCrop_zoomLevel | now split].
      * exists n. now destruct (cropMode s).
      * now exists n.
  - intros s n Hn Hz. split; [now apply Hin |]. split; [now apply Hout |]. split.
    + intros Hlt.
      rewrite (Hout (zoomInClick s) (Z.min 20 (n + 1))); [| lia | now apply Hin].
      rewrite Hz. replace (Z.max 2 (Z.min 20 (n + 1) - 1)) with n by lia.
      reflexivity.
    + intros Hgt.
      rewrite (Hin (zoomOutClick s) (Z.max 2 (n - 1))); [| lia | now apply Hout].
      rewrite Hz. replace (Z.min 20 (Z.max 2 (n - 1) + 1)) with n by lia.
      reflexivity.
Qed.

Lemma zoom_buttons_inverse_witness :
  let evs := [ZoomInButton; DoubleClick; ZoomOutButton; ZoomOutButton] in
  let s := run init evs in
  (forallb noWheel evs = true /\ (2 <= 2 <= 20)%Z /\ zoomLevel s == quarter 2) /\
  onQuarters (zoomLevel s) /\
  zoomLevel (zoomOutClick s) == quarter 2 /\
  zoomLevel (zoomOutClick (zoomInClick s)) == zoomLevel s.
Proof.
  intros evs s.
  assert (Hevs : forallb noWheel evs = true) by reflexivity.
  assert (Hn : (2 <= 2 <= 20)%Z) by lia.
  assert (Hz : zoomLevel s == quarter 2) by reflexivity.
  split; [repeat split; assumption || lia |].
  destruct zoom_buttons_inverse as [Hgrid Hstep].
  destruct (Hstep s 2%Z Hn Hz) as (_ & Hout & Hback & _).
  split; [exact (Hgrid evs Hevs) |].
  split; [exact Hout | apply Hback; lia].
Defined.

(** X10.  A commit writes one field of one file.  With a box, the image,
    the container and a file at hand, [applyCrop] leaves crop mode, drops the
    box, leaves zoom and pan alone, changes no other file's edits, and in the
    committed file's edits (the defaults if it had none) changes the crop and
    nothing else.  If the box, the image, the container or the file is
    missing, it changes nothing at all. *)
Theorem applyCrop_frame :
  forall (s : State) (img : option ImageElement) (c : option DOMRect)
         (file : option string),
    let s' := applyCrop img c file s in
    match cropRect s, img, c, file with
    | Some r, Some im, Some rect, Some fileId =>
      cropMode s' = false /\ cropRect s' = None /\
      zoomLevel s' = zoomLevel s /\ panOffset s' = panOffset s /\
      (forall other, other <> fileId ->
         editStates s' !! other = editStates s !! other) /\
      editStates s' !! fileId
      = Some (with_crop (default DEFAULT_EDIT_STATE (editStates s !! fileId))
                        (Some (cropLiteral r im rect)))
    | _, _, _, _ => s' = s
    end.
Proof.
  intros s img c file s'. subst s'. unfold applyCrop.
  destruct (cropRect s) as [r |]; [| reflexivity].
  destruct img as [im |]; [| reflexivity].
  destruct c as [rect |]; [| reflexivity].
  destruct file as [fileId |]; [| reflexivity].
  cbn. repeat split.
  - intros other Hne. now apply lookup_insert_ne.
  - apply lookup_insert_eq.
Qed.

Lemma applyCrop_frame_witness :
  let c := {| dleft := 0; dtop := 0; dwidth := 800; dheight := 600 |} in
  let img := {| bounds := c; naturalWidth := 3200; naturalHeight := 2400 |} in
  let r := {| x := 100; y := 100; width := 200; height := 150 |} in
  let s := setCropRect (Some r) (setCropMode true init) in
  let s' := applyCrop (Some img) (Some c) (Some "a"%string) s in
  "b"%string <> "a"%string /\
  cropMode s' = false /\ editStates s' !! "b"%string = editStates s !! "b"%string.
Proof.
  intros c img r s s'.
  assert (H : "b"%string <> "a"%string) by discriminate.
  split; [exact H |].
  destruct (applyCrop_frame s (Some img) (Some c) (Some "a"%string))
    as (H1 & _ & _ & _ & H5 & _).
  split; [exact H1 | exact (H5 "b"%string H)].
Defined.

(** X11.  A commit stores no negative number.  If the on-screen image has
    positive width and height and the crop box has non-negative width and
    height, the four numbers [applyCrop] stores are non-negative, wherever the
    box lies; a box that starts left of the image's left edge is stored with
    [x] equal to 0, and one that starts above its top edge with [y] equal
    to 0. *)
Theorem cropLiteral_nonnegative :
  forall (r : Rect) (img : ImageElement) (c : DOMRect),
    let b := bounds img in
    0 < dwidth b -> 0 < dheight b ->
    0 <= naturalWidth img -> 0 <= naturalHeight img ->
    0 <= width r -> 0 <= height r ->
    exists cx cy cw ch,
      cropLiteral r img c
      = [("x", cx); ("y", cy); ("width", cw); ("height", ch)]%string /\
      0 <= cx /\ 0 <= cy /\ 0 <= cw /\ 0 <= ch /\
      (x r <= dleft b - dleft c -> cx == 0) /\
      (y r <= dtop b - dtop c -> cy == 0).
Proof.
  intros r img c b Hw Hh Hnw Hnh Hrw Hrh.
  unfold cropLiteral. fold b. do 4 eexists. split; [reflexivity |].
  unfold Math.max.
  set (kx := naturalWidth img / dwidth b).
  set (ky := naturalHeight img / dheight b).
  assert (Hkx : 0 <= kx).
  { unfold kx. apply Qle_shift_div_l; lra. }
  assert (Hky : 0 <= ky).
  { unfold ky. apply Qle_shift_div_l; lra. }
  repeat split.
  - apply Q.le_max_l.
  - apply Q.le_max_l.
  - apply Qmult_le_0_compat; assumption.
  - apply Qmult_le_0_compat; assumption.
  - intros Hleft. apply Q.max_l.
    assert (H : 0 <= (dleft b - dleft c - x r) * kx) by (apply Qmult_le_0_compat; lra).
    lra.
  - intros Htop. apply Q.max_l.
    assert (H : 0 <= (dtop b - dtop c - y r) * ky) by (apply Qmult_le_0_compat; lra).
    lra.
Qed.

Lemma cropLiteral_nonnegative_witness :
  let c := {| dleft := 5; dtop := 7; dwidth := 1000; dheight := 700 |} in
  let b := {| dleft := 105; dtop := 57; dwidth := 800; dheight := 600 |} in
  let img := {| bounds := b; naturalWidth := 3200; naturalHeight := 2400 |} in
  let r := {| x := 60; y := 100; width := 200; height := 150 |} in
  (0 < dwidth b /\ 0 < dheight b /\ x r <= dleft b - dleft c) /\
  exists cx cy cw ch,
    cropLiteral r img c
    = [("x", cx); ("y", cy); ("width", cw); ("height", ch)]%string /\
    0 <= cx /\ 0 <= cy /\ 0 <= cw /\ 0 <= ch /\ cx == 0.
Proof.
  intros c b img r.
  assert (Hleft : x r <= dleft b - dleft c) by discriminate.
  split; [repeat split; discriminate |].
  destruct (cropLiteral_nonnegative r img c)
    as (cx & cy & cw & ch & Heq & Hx & Hy & Hcw & Hch & Hcx & _);
    try reflexivity; try discriminate.
  exists cx, cy, cw, ch. repeat split; try assumption. exact (Hcx Hleft).
Defined.

End Gestures.

(** ** The split divider and the hold key *)

Section CompareViewFacts.
Import CompareView.

Lemma step_splitPosition_range s ev :
  match ev with
  | MouseMove (Some rect) _ => 0 < dwidth rect
  | _ => True
  end ->
  5 <= splitPosition s <= 95 -> 5 <= splitPosition (step s ev) <= 95.
Proof.
  intros Hev Hs. destruct ev as [| | c e | | | e | e]; cbn [step]; try exact Hs.
  - destruct (compareMode s); exact Hs.
  - unfold handleSplitMouseMove. destruct c as [rect |]; [| exact Hs].
    destruct (isDraggingSplit s); cbn; [| exact Hs].
    apply clamp_bounds. lra.
  - unfold handleKeyDown. destruct (listening s); [| exact Hs].
    destruct (_ && _); exact Hs.
  - unfold handleKeyUp. destruct (listening s); [| exact Hs].
    destruct (String.eqb _ _); exact Hs.
Qed.

(** X12.  The divider position stays within [5, 95] percent: from the
    initial 50, through any sequence of compare-button presses, divider
    drags, pointer moves and key events over a container of positive width. *)
Theorem splitPosition_in_range :
  forall evs : list Event,
    laidOut evs -> 5 <= splitPosition (run init evs) <= 95.
Proof.
  intros evs Hlaid.
  assert (H : forall s, 5 <= splitPosition s <= 95 ->
                        5 <= splitPosition (run s evs) <= 95).
  { induction Hlaid as [| ev evs Hev Hlaid IH]; intros s Hs; [exact Hs |].
    cbn [run fold_left]. apply IH. now apply step_splitPosition_range. }
  apply H. cbn. lra.
Qed.

Lemma splitPosition_in_range_witness :
  let c := {| dleft := 10; dtop := 0; dwidth := 800; dheight := 600 |} in
  let evs := [CompareButton; DividerMouseDown;
              MouseMove (Some c) {| clientX := 2000; clientY := 10 |}; MouseUp] in
  laidOut evs /\ 5 <= splitPosition (run init evs) <= 95.
Proof.
  intros c evs.
  assert (H : laidOut evs) by (repeat constructor).
  split; [exact H |]. exact (splitPosition_in_range evs H).
Defined.

(** X13.  While the divider is dragged over a container of positive width,
    a pointer at horizontal fraction [p] of the container puts the divider at
    [100 p] percent when that lies in [5, 95], at 5 when it is less and at 95
    when it is more; the vertical pointer position plays no part. *)
Theorem divider_follows_pointer :
  forall (s : State) (rect : DOMRect) (e : MouseEvent),
    isDraggingSplit s = true -> 0 < dwidth rect ->
    let percent := (clientX e - dleft rect) / dwidth rect * 100 in
    let s' := handleSplitMouseMove (Some rect) e s in
    (5 <= percent <= 95 -> splitPosition s' == percent) /\
    (percent <= 5 -> splitPosition s' == 5) /\
    (95 <= percent -> splitPosition s' == 95) /\
    compareMode s' = compareMode s /\ showBefore s' = showBefore s /\
    isDraggingSplit s' = true.
Proof.
  intros s rect e Hdrag Hw percent s'. subst s'.
  unfold handleSplitMouseMove. rewrite Hdrag. cbn. fold percent.
  unfold Math.max, Math.min. repeat split; try exact Hdrag.
  - intros [Hlo Hhi]. rewrite (Q.min_r 95 percent) by exact Hhi.
    now rewrite Q.max_r.
  - intros Hlo. rewrite (Q.min_r 95 percent) by lra. now rewrite Q.max_l.
  - intros Hhi. rewrite (Q.min_l 95 percent) by exact Hhi.
    rewrite Q.max_r by lra. reflexivity.
Qed.

Lemma divider_follows_pointer_witness :
  let c := {| dleft := 10; dtop := 0; dwidth := 800; dheight := 600 |} in
  let s := run init [CompareButton; DividerMouseDown] in
  let e := {| clientX := 210; clientY := 999 |} in
  (isDraggingSplit s = true /\ 0 < dwidth c) /\
  splitPosition (handleSplitMouseMove (Some c) e s) == 25.
Proof.
  intros c s e. split; [split; reflexivity |].
  destruct (divider_follows_pointer s c e eq_refl eq_refl) as (H & _).
  rewrite H; [reflexivity | split; discriminate].
Defined.

(** No event other than a press on the divider starts a divider drag. *)
Lemma step_not_dragging s ev :
  ev <> DividerMouseDown -> isDraggingSplit s = false ->
  isDraggingSplit (step s ev) = false /\ splitPosition (step s ev) = splitPosition s.
Proof.
  intros Hev Hs. destruct ev as [| | c e | | | e | e]; cbn [step]; auto.
  - contradiction.
  - unfold handleSplitMouseMove. destruct c; [now rewrite Hs | auto].
  - unfold handleKeyDown. destruct (listening s); [| auto].
    destruct (_ && _); auto.
  - unfold handleKeyUp. destruct (listening s); [| auto].
    destruct (String.eqb _ _); auto.
Qed.

(** X14.  The divider moves only in a drag that began on the divider.
    Starting with no drag under way, no sequence of pointer moves, releases,
    key events and compare-button presses changes the divider position; and
    a press on the divider counts only while the mode is split. *)
Theorem divider_moves_only_in_drag :
  forall (s : State) (evs : list Event),
    isDraggingSplit s = false ->
    Forall (fun ev => ev <> DividerMouseDown) evs ->
    splitPosition (run s evs) = splitPosition s /\
    isDraggingSplit (run s evs) = false /\
    (compareMode (run s evs) <> Compare.split ->
     step (run s evs) DividerMouseDown = run s evs).
Proof.
  intros s evs Hs Hevs. revert s Hs.
  induction Hevs as [| ev evs Hev Hevs IH]; intros s Hs.
  - cbn. repeat split; auto. intros Hmode. destruct (compareMode s); congruence.
  - cbn [run fold_left]. fold (run (step s ev) evs).
    destruct (step_not_dragging s ev Hev Hs) as [Hd Hp].
    destruct (IH (step s ev) Hd) as (H1 & H2 & H3).
    rewrite H1, Hp. auto.
Qed.

Lemma divider_moves_only_in_drag_witness :
  let c := {| dleft := 10; dtop := 0; dwidth := 800; dheight := 600 |} in
  let evs := [CompareButton; MouseMove (Some c) {| clientX := 700; clientY := 5 |};
              MouseUp] in
  (isDraggingSplit init = false /\ Forall (fun ev => ev <> DividerMouseDown) evs) /\
  splitPosition (run init evs) = 50.
Proof.
  intros c evs.
  assert (H : Forall (fun ev => ev <> DividerMouseDown) evs)
    by (repeat constructor; discriminate).
  split; [split; [reflexivity | exact H] |].
  exact (proj1 (divider_moves_only_in_drag init evs eq_refl H)).
Defined.

(** Which image fills the view: the unedited image alone exactly when the
    mode is toggle, the hold flag is up and a "before" URL is loaded; the split
    view exactly when the mode is split and both URLs are loaded; with compare
    mode off, never the unedited image. *)
Lemma view_shows_before_only_on_demand :
  forall (s : State) (beforeUrl previewUrl : option Url),
    (forall b, view beforeUrl previewUrl s = BeforeOnly b <->
               compareMode s = Compare.toggle /\ showBefore s = true /\
               beforeUrl = Some b) /\
    (forall a b p, view beforeUrl previewUrl s = SplitView a b p <->
                   compareMode s = Compare.split /\ beforeUrl = Some b /\
                   previewUrl = Some a /\ p = splitPosition s) /\
    (compareMode s = Compare.off ->
     view beforeUrl previewUrl s
     = match previewUrl with Some a => AfterOnly a | None => Placeholder end).
Proof.
  intros s beforeUrl previewUrl. unfold view.
  destruct (compareMode s), (showBefore s), beforeUrl as [b0 |],
    previewUrl as [a0 |]; repeat split; intros;
    repeat match goal with
           | H : _ /\ _ |- _ => destruct H
           end; try discriminate; try congruence.
Qed.

(** X15.  The hold key.  In toggle mode a fresh press of Space raises the
    hold flag, auto-repeated presses and other keys leave it alone, and
    releasing Space lowers it.  Outside toggle mode no key event changes
    anything: if the mode is switched away while Space is down, the release
    goes unheard and the flag is still up when toggle mode is entered
    again. *)
Theorem hold_key :
  forall (s : State) (e : KeyboardEvent),
    (compareMode s = Compare.toggle ->
     showBefore (handleKeyDown space s) = true /\
     showBefore (handleKeyUp space (handleKeyDown space s)) = false /\
     (isRepeat e = true \/ code e <> "Space"%string ->
      handleKeyDown e s = s) /\
     (code e <> "Space"%string -> handleKeyUp e s = s)) /\
    (compareMode s <> Compare.toggle ->
     handleKeyDown e s = s /\ handleKeyUp e s = s) /\
    (compareMode s = Compare.toggle ->
     let s' := run s [KeyDown space; CompareButton; KeyUp space;
                      CompareButton; CompareButton] in
     compareMode s' = Compare.toggle /\ showBefore s' = true).
Proof.
  intros s e. repeat split.
  - unfold handleKeyDown, listening. now rewrite H.
  - unfold handleKeyUp, handleKeyDown, listening. rewrite H. cbn. now rewrite H.
  - intros He. unfold handleKeyDown, listening. rewrite H.
    destruct He as [He | He].
    + rewrite He. now rewrite andb_false_r.
    + apply String.eqb_neq in He. now rewrite He.
  - intros He. unfold handleKeyUp, listening. rewrite H.
    apply String.eqb_neq in He. now rewrite He.
  - unfold handleKeyDown, listening. destruct (compareMode s); congruence.
  - unfold handleKeyUp, listening. destruct (compareMode s); congruence.
  - cbn. unfold handleKeyDown, listening. rewrite H. cbn. now rewrite H.
  - cbn. unfold handleKeyDown, listening. rewrite H. cbn. now rewrite H.
Qed.

Lemma hold_key_witness :
  let s := run init [CompareButton; CompareButton] in
  compareMode s = Compare.toggle /\
  let s' := run s [KeyDown space; CompareButton; KeyUp space;
                   CompareButton; CompareButton] in
  compareMode s' = Compare.toggle /\ showBefore s' = true /\
  view (Some 7%nat) (Some 8%nat) s' = BeforeOnly 7%nat.
Proof.
  intros s. split; [reflexivity |].
  destruct (hold_key s space) as (_ & _ & H).
  destruct (H eq_refl) as [Hm Hb].
  split; [exact Hm | split; [exact Hb | reflexivity]].
Defined.

End CompareViewFacts.

(** ** More on the preview loader *)

Section PreviewFacts.
Import Preview PreviewInv.

Local Arguments ids : simpl never.

(** *** The displayed URL is never revoked *)

Lemma settle_live id o s :
  wf s ->
  (forall u, previewUrl s = Some u -> is_Some (blobs s !! u)) ->
  forall u, previewUrl (settle id o s) = Some u -> is_Some (blobs (settle id o s) !! u).
Proof.
  intros Hwf Hlive u. unfold settle.
  destruct (find (is_closure id) (awaiting s)) as [c |] eqn:Hfind; [| apply Hlive].
  destruct (find_closure id _ c Hfind) as [Hin _].
  unfold loadPreview_resume.
  destruct o as [bytes | err]; destruct (current c (dropAwaiting id s)); cbn;
    try apply Hlive; try discriminate.
  intros [= <-].
  destruct (capturedPreviewUrl c) as [old |] eqn:Hold.
  - pose proof (wf_captured_fresh s Hwf c old (or_introl Hin) Hold).
    rewrite lookup_delete_ne by lia. rewrite lookup_insert_eq. eauto.
  - rewrite lookup_insert_eq. eauto.
Qed.

Lemma step_live s tev :
  wf s ->
  (forall u, previewUrl s = Some u -> is_Some (blobs s !! u)) ->
  forall u, previewUrl (step s tev) = Some u -> is_Some (blobs (step s tev) !! u).
Proof.
  intros Hwf Hlive. unfold step, handle.
  pose proof (wf_advance (fst tev) s Hwf) as Hwf1.
  destruct (advance_display (fst tev) s) as (Hurl1 & Hblobs1 & _).
  assert (Hlive1 : forall u, previewUrl (advance (fst tev) s) = Some u ->
                             is_Some (blobs (advance (fst tev) s) !! u)).
  { intros u. rewrite Hurl1, Hblobs1. apply Hlive. }
  set (s1 := advance (fst tev) s) in *.
  destruct (snd tev) as [file e | id o |].
  - destruct (runCleanup_fields s1) as (_ & Hurl & Hblobs & _).
    unfold effectRun, effectBody. destruct file; cbn; try discriminate.
    rewrite Hurl, Hblobs. exact Hlive1.
  - now apply settle_live.
  - cbn. discriminate.
Qed.

(** X16.  The loader never revokes the object URL it is displaying: in
    every state reachable from the initial one, by any trace of changes,
    selection moves and settled promises, in any order and at any times, the
    displayed URL still has its blob behind it. *)
Theorem displayed_url_is_live :
  forall (tevs : list (Z * Event)) (u : Url),
    previewUrl (run init tevs) = Some u ->
    exists bytes, blobs (run init tevs) !! u = Some bytes.
Proof.
  intros tevs.
  assert (H : forall s, wf s ->
              (forall u, previewUrl s = Some u -> is_Some (blobs s !! u)) ->
              forall u, previewUrl (run s tevs) = Some u ->
                        is_Some (blobs (run s tevs) !! u)).
  { induction tevs as [| tev tevs IH]; intros s Hwf Hlive; [exact Hlive |].
    cbn [run fold_left]. apply IH; [now apply wf_step | now apply step_live]. }
  intros u Hu. apply (H init wf_init); [| exact Hu]. cbn. discriminate.
Qed.

Lemma displayed_url_is_live_witness :
  let e := DEFAULT_EDIT_STATE in
  let f := Some "photo"%string in
  let tevs := [(0, Change f e); (160, Settle 1 (Resolved [7]));
               (200, Change f (with_crop e (Some []))); (400, Settle 2 (Resolved [8]))]%Z in
  previewUrl (run init tevs) = Some 1%nat /\
  exists bytes, blobs (run init tevs) !! 1%nat = Some bytes.
Proof.
  intros e f tevs. split; [reflexivity |].
  exact (displayed_url_is_live tevs 1%nat eq_refl).
Defined.

(** *** Requests *)

Lemma numbered_ext s s' :
  requests s' = requests s -> requestIdRef s' = requestIdRef s ->
  timer s' = timer s -> numbered s -> numbered s'.
Proof.
  intros Hr Hid Ht [H1 H2 H3 H4].
  constructor; unfold armed; rewrite ?Hr, ?Hid, ?Ht; auto.
Qed.

Lemma numbered_step s tev : wf s -> numbered s -> numbered (step s tev).
Proof.
  intros Hwf Hn. unfold step, handle.
  assert (Hn1 : numbered (advance (fst tev) s)).
  { unfold advance. destruct (timer s) as [[due c] |] eqn:Htimer; [| exact Hn].
    destruct (due <=? fst tev)%Z; [| exact Hn].
    assert (Harmed : armed s c) by (now exists due).
    destruct (wf_timer_latest s Hwf c Harmed) as [Hid _].
    destruct Hn as [H1 H2 H3 H4].
    constructor; unfold armed; cbn.
    - constructor; [exact H1 |]. apply List.Forall_forall. intros r Hr. cbn.
      now apply (H3 c r).
    - intros r [<- | Hr]; [| now apply H2].
      cbn. pose proof (H4 c Harmed). split; [lia | reflexivity].
    - intros c' r [due' H]. discriminate.
    - intros c' [due' H]. discriminate. }
  pose proof (wf_advance (fst tev) s Hwf) as Hwf1.
  set (s1 := advance (fst tev) s) in *.
  destruct (snd tev) as [file e | id o |].
  - pose proof (runCleanup_timer s1 Hwf1) as Htimer.
    destruct (runCleanup_fields s1) as (Hid & _ & _ & _ & Hreqs & _).
    destruct Hn1 as [H1 H2 H3 H4].
    unfold effectRun, effectBody. destruct file as [f |];
      constructor; unfold armed; cbn; rewrite ?Hreqs, ?Hid; auto.
    + intros r Hr. destruct (H2 r Hr) as [[? ?] ?]. repeat split; auto; lia.
    + intros c r [due H] Hr. injection H as _ <-. cbn.
      destruct (H2 r Hr) as [[? ?] ?]. lia.
    + intros c [due H]. injection H as _ <-. cbn. lia.
    + intros c r [due H]. rewrite Htimer in H. discriminate.
    + intros c [due H]. rewrite Htimer in H. discriminate.
  - destruct (settle_fields id o s1) as (Hid & Ht & Hr & _).
    now apply (numbered_ext s1).
  - now apply (numbered_ext s1).
Qed.

Lemma numbered_run tevs : forall s, wf s -> numbered s -> numbered (run s tevs).
Proof.
  induction tevs as [| tev tevs IH]; intros s Hwf Hn; [exact Hn |].
  cbn [run fold_left]. apply IH; [now apply wf_step | now apply numbered_step].
Qed.

Lemma numbered_init : numbered init.
Proof.
  constructor; cbn; try (intros; contradiction);
    try (intros c [due H]; discriminate);
    try (intros c r [due H]; discriminate).
  constructor.
Qed.

(** A strictly decreasing list of numbers between 1 and [n] has at most [n]
    entries. *)
Lemma decreasing_length {A} (f : A -> nat) (l : list A) : forall n,
  StronglySorted (fun a b => (f b < f a)%nat) l ->
  (forall r, In r l -> (1 <= f r <= n)%nat) ->
  (length l <= n)%nat.
Proof.
  induction l as [| r l IH]; intros n Hsorted Hrange; cbn; [lia |].
  apply StronglySorted_inv in Hsorted. destruct Hsorted as [Hsorted Hall].
  rewrite List.Forall_forall in Hall.
  pose proof (Hrange r (or_introl eq_refl)) as Hr.
  assert (Hlen : (length l <= f r - 1)%nat).
  { apply IH; [exact Hsorted |]. intros r' Hr'.
    pose proof (Hall r' Hr'). pose proof (Hrange r' (or_intror Hr')). lia. }
  lia.
Qed.

(** X17.  One effect run, at most one request.  In every reachable state
    the calls to [getPreview] made so far carry pairwise distinct sequence
    numbers, increasing in the order the calls were made, each between 1 and
    the latest assigned number and each asking for size 1600; so there are
    never more calls than sequence numbers assigned. *)
Theorem requests_are_numbered :
  forall (tevs : list (Z * Event)) (T : Z),
    let s := advance T (run init tevs) in
    StronglySorted (fun a b => (reqId b < reqId a)%nat) (requests s) /\
    (forall r, In r (requests s) ->
       (1 <= reqId r <= requestIdRef s)%nat /\ maxSize r = 1600%Z) /\
    (length (requests s) <= requestIdRef s)%nat.
Proof.
  intros tevs T s.
  assert (Hwf : wf (run init tevs)) by apply wf_run, wf_init.
  assert (Hn : numbered (run init tevs)) by (apply numbered_run; [apply wf_init | apply numbered_init]).
  assert (Hs : numbered s).
  { pose proof (numbered_step (run init tevs) (T, SelectIndex) Hwf Hn) as H.
    unfold step, handle in H. cbn [fst snd] in H. fold s in H.
    now apply (numbered_ext (setSelectedIndex s)). }
  destruct Hs as [H1 H2 H3 H4]. split; [exact H1 |]. split; [exact H2 |].
  apply (decreasing_length reqId); [exact H1 |]. intros r Hr. now apply H2.
Qed.

Lemma requests_are_numbered_witness :
  let e := DEFAULT_EDIT_STATE in
  let f := Some "photo"%string in
  let tevs := [(0, Change f e); (200, Change f (with_crop e (Some [])))]%Z in
  let s := advance 1000 (run init tevs) in
  let r := requestOf 0 1 "photo" e in
  In r (requests s) /\ (1 <= reqId r <= requestIdRef s)%nat /\
  (length (requests s) <= requestIdRef s)%nat.
Proof.
  intros e f tevs s r.
  assert (H : In r (requests s)) by (right; left; reflexivity).
  split; [exact H |].
  destruct (requests_are_numbered tevs 1000) as (_ & H2 & H3).
  split; [exact (proj1 (H2 r H)) | exact H3].
Defined.

(** *** Where a request comes from *)

Lemma caused_run (P : Z -> string -> EditState -> Prop) tevs : forall s,
  (forall r, In r (requests s) -> P (sentAt r) (reqFile r) (reqEdits r)) ->
  (forall due c, timer s = Some (due, c) -> P due (fileId c) (edits c)) ->
  (forall t f e, In (t, Change (Some f) e) tevs -> P (t + debounceDelay)%Z f e) ->
  (forall r, In r (requests (run s tevs)) -> P (sentAt r) (reqFile r) (reqEdits r)) /\
  (forall due c, timer (run s tevs) = Some (due, c) -> P due (fileId c) (edits c)).
Proof.
  induction tevs as [| [t ev] tevs IH]; intros s Hreqs Htimer Hchanges;
    [now split |].
  cbn [run fold_left]. fold (run (step s (t, ev)) tevs).
  assert (H1 : (forall r, In r (requests (advance t s)) ->
                          P (sentAt r) (reqFile r) (reqEdits r)) /\
               (forall due c, timer (advance t s) = Some (due, c) ->
                              P due (fileId c) (edits c))).
  { unfold advance. destruct (timer s) as [[due c] |] eqn:Ht;
      [| split; [exact Hreqs | intros ? ? H; rewrite Ht in H; discriminate]].
    destruct (due <=? t)%Z;
      [| split; [exact Hreqs | intros ? ? H; rewrite Ht in H; now apply Htimer]].
    split; cbn; [| discriminate].
    intros r [<- | Hr]; [cbn; now apply Htimer | now apply Hreqs]. }
  destruct H1 as [Hreqs1 Htimer1]. set (s1 := advance t s) in *.
  apply IH.
  - unfold step, handle. cbn [fst snd]. fold s1.
    destruct ev as [file e | id o |].
    + destruct (runCleanup_fields s1) as (_ & _ & _ & _ & Hr & _).
      unfold effectRun, effectBody. destruct file; cbn; now rewrite Hr.
    + destruct (settle_fields id o s1) as (_ & _ & -> & _). exact Hreqs1.
    + exact Hreqs1.
  - unfold step, handle. cbn [fst snd]. fold s1.
    destruct ev as [file e | id o |].
    + unfold effectRun, effectBody. destruct file as [f |]; cbn.
      * intros due c [= <- <-]. cbn. apply Hchanges. now left.
      * intros due c Hc. unfold runCleanup in Hc.
        destruct (cleanup s1); cbn in Hc; [| now apply Htimer1].
        destruct (timer s1) as [[due' c'] |] eqn:Ht; [| discriminate].
        destruct (Nat.eqb (currentRequestId c') n); [discriminate |].
        injection Hc as <- <-. now apply Htimer1.
    + destruct (settle_fields id o s1) as (_ & -> & _). exact Htimer1.
    + exact Htimer1.
  - intros t' f e Hin. apply Hchanges. now right.
Qed.

(** X18.  No request without a change, and never early.  Every call to
    [getPreview] ever made was caused by a change of the trace that had a file
    selected: it is for that file, carries the edit state of that change, and
    was made exactly one debounce delay after it. *)
Theorem request_has_a_cause :
  forall (tevs : list (Z * Event)) (T : Z) (r : Request),
    In r (requests (advance T (run init tevs))) ->
    exists t f e,
      In (t, Change (Some f) e) tevs /\
      sentAt r = (t + debounceDelay)%Z /\ reqFile r = f /\ reqEdits r = e.
Proof.
  intros tevs T r Hr.
  set (P := fun (at_ : Z) (f : string) (e : EditState) =>
              exists t, In (t, Change (Some f) e) tevs /\ at_ = (t + debounceDelay)%Z).
  destruct (caused_run P tevs init) as [Hreqs Htimer].
  - cbn. intros; contradiction.
  - cbn. discriminate.
  - intros t f e Hin. exists t. auto.
  - assert (HP : P (sentAt r) (reqFile r) (reqEdits r)).
    { unfold advance in Hr.
      destruct (timer (run init tevs)) as [[due c] |] eqn:Ht; [| now apply Hreqs].
      destruct (due <=? T)%Z; [| now apply Hreqs].
      cbn in Hr. destruct Hr as [<- | Hr]; [cbn; now apply (Htimer due c) |].
      now apply Hreqs. }
    destruct HP as (t & Hin & Hat). exists t, (reqFile r), (reqEdits r). auto.
Qed.

Lemma request_has_a_cause_witness :
  let e := DEFAULT_EDIT_STATE in
  let f := "photo"%string in
  let tevs := [(0, Change (Some f) e); (50, Change (Some f) (with_crop e (Some [])))]%Z in
  let r := requestOf 50 2 f (with_crop e (Some [])) in
  In r (requests (advance 500 (run init tevs))) /\
  exists t f' e',
    In (t, Change (Some f') e') tevs /\
    sentAt r = (t + debounceDelay)%Z /\ reqFile r = f' /\ reqEdits r = e'.
Proof.
  intros e f tevs r.
  assert (H : In r (requests (advance 500 (run init tevs)))) by (left; reflexivity).
  split; [exact H |]. exact (request_has_a_cause tevs 500 r H).
Defined.

(** *** Cancelled runs *)

Lemma guarded_init : guarded init.
Proof.
  constructor; cbn; [intros; contradiction | intros c [due H]; discriminate].
Qed.

Lemma runCleanup_cancels s :
  guarded s -> forall c, In c (awaiting (runCleanup s)) -> cancelled c = true.
Proof.
  intros [Haw _] c. unfold runCleanup.
  destruct (cleanup s) as [id |] eqn:Hcl; cbn.
  - rewrite in_map_iff. intros (c0 & <- & Hin).
    destruct (Nat.eqb (currentRequestId c0) id) eqn:Heq; [reflexivity |].
    destruct (cancelled c0) eqn:Hc; [reflexivity |].
    apply Haw in Hin; [| exact Hc]. rewrite ?Hcl in Hin. injection Hin as Hid.
    subst id. now rewrite Nat.eqb_refl in Heq.
  - intros Hin. destruct (cancelled c) eqn:Hc; [reflexivity |].
    apply Haw in Hin; [discriminate | exact Hc].
Qed.

Lemma guarded_step s tev : wf s -> guarded s -> guarded (step s tev).
Proof.
  intros Hwf Hg. unfold step, handle.
  assert (Hg1 : guarded (advance (fst tev) s)).
  { unfold advance. destruct (timer s) as [[due c] |] eqn:Htimer; [| exact Hg].
    destruct (due <=? fst tev)%Z; [| exact Hg].
    assert (Harmed : armed s c) by (now exists due).
    destruct Hg as [Haw Harm].
    constructor; unfold armed; cbn.
    - intros c' [<- | Hin] Hc; [now apply (wf_timer_cleanup s Hwf) | now apply Haw].
    - intros c' [due' H]. discriminate. }
  pose proof (wf_advance (fst tev) s Hwf) as Hwf1.
  set (s1 := advance (fst tev) s) in *.
  destruct (snd tev) as [file e | id o |].
  - pose proof (runCleanup_timer s1 Hwf1) as Htimer.
    pose proof (runCleanup_cancels s1 Hg1) as Hall.
    unfold effectRun, effectBody. destruct file as [f |];
      constructor; unfold armed; cbn.
    + intros c Hin Hc. rewrite (Hall c Hin) in Hc. discriminate.
    + intros c [due H]. now injection H as _ <-.
    + intros c Hin Hc. rewrite (Hall c Hin) in Hc. discriminate.
    + intros c [due H]. rewrite Htimer in H. discriminate.
  - destruct Hg1 as [Haw Harm].
    destruct (settle_fields id o s1) as (_ & Ht & _ & Hc & _).
    constructor; unfold armed; rewrite ?Ht, ?Hc; [| exact Harm].
    intros c Hin. apply Haw. revert Hin. unfold settle.
    destruct (find (is_closure id) (awaiting s1)) as [c0 |]; [| auto].
    destruct (resume_fields c0 o (dropAwaiting id s1)) as (_ & -> & _).
    cbn. intros Hin. apply filter_In in Hin. tauto.
  - destruct Hg1 as [Haw Harm]. constructor; auto.
Qed.

Lemma guarded_run tevs : forall s, wf s -> guarded s -> guarded (run s tevs).
Proof.
  induction tevs as [| tev tevs IH]; intros s Hwf Hg; [exact Hg |].
  cbn [run fold_left]. apply IH; [now apply wf_step | now apply guarded_step].
Qed.

(** A settled promise of a cancelled run changes nothing but the list of
    suspended calls. *)
Lemma settle_all_cancelled id o s :
  (forall c, In c (awaiting s) -> cancelled c = true) ->
  previewUrl (settle id o s) = previewUrl s /\
  localLoading (settle id o s) = localLoading s /\
  blobs (settle id o s) = blobs s /\
  console (settle id o s) = console s /\
  (forall c, In c (awaiting (settle id o s)) -> cancelled c = true).
Proof.
  intros Hall. unfold settle.
  destruct (find (is_closure id) (awaiting s)) as [c |] eqn:Hfind;
    [| repeat split; auto].
  destruct (find_closure id _ c Hfind) as [Hin _].
  assert (Hcur : current c (dropAwaiting id s) = false).
  { unfold current. now rewrite (Hall c Hin). }
  unfold loadPreview_resume. rewrite Hcur.
  assert (Hsub : forall c', In c' (awaiting (dropAwaiting id s)) -> cancelled c' = true).
  { cbn. intros c' Hc'. apply filter_In in Hc'. apply Hall. tauto. }
  destruct o; repeat split; auto.
Qed.

(** X19.  Deselecting is final.  Once a change leaves no file selected,
    the image slot is empty and stays empty whatever responses still arrive,
    in any order and at any time: every run in flight has been cancelled, no
    timer is armed, so no late response is displayed, none touches the
    loading flag, the blobs or the console, and no further request is made. *)
Theorem deselect_is_final :
  forall (pre settles : list (Z * Event)) (t T : Z) (e : EditState),
    onlySettles settles ->
    let s := step (run init pre) (t, Change None e) in
    let s' := advance T (run s settles) in
    previewUrl s = None /\ timer s = None /\
    previewUrl s' = None /\
    requests s' = requests s /\ localLoading s' = localLoading s /\
    blobs s' = blobs s /\ console s' = console s.
Proof.
  intros pre settles t T e Hsettles s s'.
  assert (Hwf0 : wf (advance t (run init pre))) by (apply wf_advance, wf_run, wf_init).
  assert (Hg0 : guarded (advance t (run init pre))).
  { pose proof (guarded_step (run init pre) (t, SelectIndex)
                  (wf_run pre init wf_init)
                  (guarded_run pre init wf_init guarded_init)) as [Haw Harm].
    constructor; auto. }
  assert (Hs : s = effectBody t None e (runCleanup (advance t (run init pre))))
    by reflexivity.
  assert (Htimer : timer s = None).
  { rewrite Hs. cbn. now apply runCleanup_timer. }
  assert (Hall : forall c, In c (awaiting s) -> cancelled c = true).
  { rewrite Hs. cbn. now apply runCleanup_cancels. }
  assert (Hurl : previewUrl s = None) by (now rewrite Hs).
  assert (H : forall s0,
            timer s0 = None -> (forall c, In c (awaiting s0) -> cancelled c = true) ->
            previewUrl (run s0 settles) = previewUrl s0 /\
            timer (run s0 settles) = None /\
            requests (run s0 settles) = requests s0 /\
            localLoading (run s0 settles) = localLoading s0 /\
            blobs (run s0 settles) = blobs s0 /\
            console (run s0 settles) = console s0).
  { clear - Hsettles. induction Hsettles as [| [t' ev] tevs Hev _ IH];
      intros s0 Ht Hall; [repeat split; auto |].
    cbn [run fold_left]. fold (run (step s0 (t', ev)) tevs).
    destruct ev as [| id o |]; cbn in Hev; try contradiction.
    assert (Hstep : step s0 (t', Settle id o) = settle id o s0).
    { unfold step, handle, advance. cbn [fst snd]. now rewrite Ht. }
    rewrite Hstep.
    destruct (settle_all_cancelled id o s0 Hall) as (H1 & H2 & H3 & H4 & H5).
    destruct (settle_fields id o s0) as (_ & H6 & H7 & _).
    destruct (IH (settle id o s0)) as (I1 & I2 & I3 & I4 & I5 & I6);
      [congruence | exact H5 |].
    repeat split; congruence. }
  destruct (H s Htimer Hall) as (I1 & I2 & I3 & I4 & I5 & I6).
  assert (Hadv : s' = run s settles).
  { subst s'. unfold advance. now rewrite I2. }
  rewrite Hadv. rewrite I1, Hurl. repeat split; assumption.
Qed.

Lemma deselect_is_final_witness :
  let e := DEFAULT_EDIT_STATE in
  let pre := [(0, Change (Some "photo"%string) e)]%Z in
  let settles := [(500, Settle 1 (Resolved [1; 2]))]%Z in
  onlySettles settles /\
  let s := step (run init pre) (200%Z, Change None e) in
  awaiting s <> [] /\
  previewUrl (advance 900 (run s settles)) = None.
Proof.
  intros e pre settles.
  assert (H : onlySettles settles) by (repeat constructor).
  split; [exact H |]. split; [discriminate |].
  destruct (deselect_is_final pre settles 200 900 e H) as (_ & _ & Hurl & _).
  exact Hurl.
Defined.

(** *** The loading flag *)

Lemma NoDup_ids_eq (l : list Closure) c c' :
  List.NoDup (ids l) -> In c l -> In c' l ->
  currentRequestId c = currentRequestId c' -> c = c'.
Proof.
  unfold ids. induction l as [| a l IH]; cbn; [contradiction |].
  intros Hnd [<- | Hc] [<- | Hc'] Heq; auto;
    inversion Hnd as [| ? ? Hnotin Hnd']; subst.
  - exfalso. apply Hnotin. rewrite Heq. now apply in_map.
  - exfalso. apply Hnotin. rewrite <- Heq. now apply in_map.
  - now apply IH.
Qed.

Lemma find_first (l : list Closure) id c :
  List.NoDup (ids l) -> In c l -> currentRequestId c = id ->
  find (is_closure id) l = Some c.
Proof.
  intros Hnd Hin Hid.
  destruct (find (is_closure id) l) as [c0 |] eqn:Hfind.
  - destruct (find_closure id l c0 Hfind) as [Hin0 Hid0].
    f_equal. apply (NoDup_ids_eq l); auto. congruence.
  - exfalso. apply (find_none _ _ Hfind) in Hin.
    unfold is_closure in Hin. rewrite Hid, Nat.eqb_refl in Hin. discriminate.
Qed.

Lemma loading_step s tev :
  wf s -> guarded s ->
  (localLoading s = true -> cleanup s = None \/ pending s) ->
  localLoading (step s tev) = true ->
  cleanup (step s tev) = None \/ pending (step s tev).
Proof.
  intros Hwf Hg HL. unfold step, handle.
  assert (HL1 : localLoading (advance (fst tev) s) = true ->
                cleanup (advance (fst tev) s) = None \/ pending (advance (fst tev) s)).
  { unfold advance. destruct (timer s) as [[due c] |] eqn:Htimer; [| exact HL].
    destruct (due <=? fst tev)%Z; [| exact HL].
    intros _. right. right. exists c. cbn. split; [now left |].
    assert (Harmed : armed s c) by (now exists due).
    unfold current. cbn.
    rewrite (guarded_armed s Hg c Harmed).
    destruct (wf_timer_latest s Hwf c Harmed) as [-> _].
    now rewrite Nat.eqb_refl. }
  pose proof (wf_advance (fst tev) s Hwf) as Hwf1.
  set (s1 := advance (fst tev) s) in *.
  destruct (snd tev) as [file e | id o |].
  - intros _. unfold effectRun, effectBody. destruct file as [f |]; cbn.
    + right. left. eexists. eexists. reflexivity.
    + now left.
  - unfold settle.
    destruct (find (is_closure id) (awaiting s1)) as [c |] eqn:Hfind; [| exact HL1].
    destruct (find_closure id _ c Hfind) as [Hin Hid].
    unfold loadPreview_resume.
    destruct (current c (dropAwaiting id s1)) eqn:Hcur; [destruct o; discriminate |].
    assert (Hgoal : localLoading s1 = true ->
                    cleanup s1 = None \/ pending (dropAwaiting id s1)).
    { intros Hl. destruct (HL1 Hl) as [Hc | [Harm | (c' & Hin' & Hcur')]];
        [now left | right; now left |].
      right. right. exists c'. split; [| exact Hcur'].
      cbn. apply filter_In. split; [exact Hin' |].
      unfold is_closure. destruct (Nat.eqb_spec (currentRequestId c') id); [| reflexivity].
      exfalso.
      assert (c' = c)
        by (apply (NoDup_ids_eq (awaiting s1)); auto using wf_awaiting_nodup; congruence).
      subst c'. change (current c s1 = false) in Hcur. congruence. }
    destruct o; exact Hgoal.
  - exact HL1.
Qed.

(** X20.  The loading flag is never left up for nothing.  In every
    reachable state in which the flag is up, either the last effect run found
    no file selected, or a debounce timer is armed, or a call is suspended
    whose response will pass the guard; and the response that passes the
    guard, success or failure, lowers the flag. *)
Theorem loading_flag_has_a_cause :
  forall (tevs : list (Z * Event)),
    let s := run init tevs in
    (localLoading s = true -> cleanup s = None \/ pending s) /\
    (forall c o, In c (awaiting s) -> current c s = true ->
       localLoading (settle (currentRequestId c) o s) = false).
Proof.
  intros tevs s. split.
  - subst s.
    assert (H : forall s0, wf s0 -> guarded s0 ->
                (localLoading s0 = true -> cleanup s0 = None \/ pending s0) ->
                localLoading (run s0 tevs) = true ->
                cleanup (run s0 tevs) = None \/ pending (run s0 tevs)).
    { induction tevs as [| tev tevs IH]; intros s0 Hwf Hg HL; [exact HL |].
      cbn [run fold_left]. apply IH;
        [now apply wf_step | now apply guarded_step | now apply loading_step]. }
    apply (H init wf_init guarded_init). cbn. discriminate.
  - intros c o Hin Hcur.
    assert (Hwf : wf s) by apply wf_run, wf_init.
    unfold settle.
    rewrite (find_first (awaiting s) (currentRequestId c) c
               (wf_awaiting_nodup s Hwf) Hin eq_refl).
    unfold loadPreview_resume.
    change (current c (dropAwaiting (currentRequestId c) s)) with (current c s).
    rewrite Hcur. now destruct o.
Qed.

Lemma loading_flag_has_a_cause_witness :
  let e := DEFAULT_EDIT_STATE in
  let tevs := [(0, Change (Some "photo"%string) e);
               (200, Change (Some "photo"%string) (with_crop e (Some [])));
               (210, Settle 1 (Rejected "late"))]%Z in
  let s := run init tevs in
  localLoading s = true /\ (cleanup s = None \/ pending s).
Proof.
  intros e tevs s. split; [reflexivity |].
  exact (proj1 (loading_flag_has_a_cause tevs) eq_refl).
Defined.

End PreviewFacts.

(** ** More on the compare loader *)

Section CompareFacts.
Import Compare CompareInv.

Lemma before_guarded_init f : guarded (init f).
Proof.
  constructor; cbn; try (intros; contradiction); try discriminate. auto.
Qed.

Lemma runCleanup_cancels_all s :
  (forall c, In c (awaiting s) -> cancelled c = false -> cleanup s = Some (handle c)) ->
  cleanup (runCleanup s) = None /\
  (forall c, In c (awaiting (runCleanup s)) -> cancelled c = true).
Proof.
  intros Haw. unfold runCleanup.
  destruct (cleanup s) as [h |] eqn:Hcl; cbn; split; auto.
  - intros c. rewrite in_map_iff. intros (c0 & <- & Hin).
    destruct (Nat.eqb (handle c0) h) eqn:Heq; [reflexivity |].
    destruct (cancelled c0) eqn:Hc; [reflexivity |].
    apply Haw in Hin; [| exact Hc]. rewrite ?Hcl in Hin. injection Hin as Hid.
    subst h. now rewrite Nat.eqb_refl in Heq.
  - intros c Hin. destruct (cancelled c) eqn:Hc; [reflexivity |].
    apply Haw in Hin; [| exact Hc]. rewrite ?Hcl in Hin. discriminate.
Qed.

Lemma before_guarded_effectRun s :
  (forall c, In c (awaiting s) -> cancelled c = false -> cleanup s = Some (handle c)) ->
  guarded (effectRun s).
Proof.
  intros Hg. unfold effectRun.
  destruct (runCleanup_cancels_all s Hg) as [Hcl Hall].
  destruct (runCleanup_requests s) as (Hreqs & Hf & Hm & Hb).
  set (s1 := runCleanup s) in *.
  unfold effectBody.
  destruct (file s1) as [f |] eqn:Hfile; [destruct (compareMode s1) eqn:Hmode |].
  - destruct (beforeUrl s1) eqn:Hurl; constructor; cbn;
      rewrite ?Hcl, ?Hurl; try discriminate; auto.
    + intros c Hin Hc. rewrite (Hall c Hin) in Hc. discriminate.
    + intros c Hin Hc. rewrite (Hall c Hin) in Hc. discriminate.
  - constructor; cbn.
    + intros c [<- | Hin] Hc; [reflexivity |]. rewrite (Hall c Hin) in Hc. discriminate.
    + intros h [= <-]. reflexivity.
    + rewrite ?Hmode, ?Hfile. intros [H | H]; discriminate.
  - constructor; cbn.
    + intros c [<- | Hin] Hc; [reflexivity |]. rewrite (Hall c Hin) in Hc. discriminate.
    + intros h [= <-]. reflexivity.
    + rewrite ?Hmode, ?Hfile. intros [H | H]; discriminate.
  - destruct (compareMode s1); destruct (beforeUrl s1) eqn:Hurl; constructor; cbn;
      rewrite ?Hcl, ?Hurl; try discriminate; auto;
      intros c Hin Hc; rewrite (Hall c Hin) in Hc; discriminate.
Qed.

Lemma settle_frame h o s :
  file (settle h o s) = file s /\ compareMode (settle h o s) = compareMode s /\
  cleanup (settle h o s) = cleanup s /\
  (forall c, In c (awaiting (settle h o s)) -> In c (awaiting s)).
Proof.
  unfold settle. destruct (find (is_closure h) (awaiting s)) as [c |]; [| auto].
  assert (Hsub : forall c', In c' (awaiting (dropAwaiting h s)) -> In c' (awaiting s)).
  { cbn. intros c' Hc'. apply filter_In in Hc'. tauto. }
  unfold loadBefore_resume. destruct o; [destruct (cancelled c) |]; cbn; auto.
Qed.

(** What a settled promise can do to the "before" URL. *)
Lemma settle_beforeUrl h o s :
  guarded s ->
  beforeUrl (settle h o s) <> beforeUrl s ->
  cleanup s = Some h /\ S h = length (requests s) /\ exists bytes, o = Resolved bytes.
Proof.
  intros Hg. unfold settle.
  destruct (find (is_closure h) (awaiting s)) as [c |] eqn:Hfind; [| congruence].
  apply find_some in Hfind. destruct Hfind as [Hin Hh].
  apply Nat.eqb_eq in Hh.
  unfold loadBefore_resume. destruct o as [bytes | err]; [| cbn; congruence].
  destruct (cancelled c) eqn:Hc; [cbn; congruence |].
  intros _. pose proof (guarded_awaiting s Hg c Hin Hc) as Hcl.
  rewrite Hh in Hcl. split; [exact Hcl |].
  split; [now apply (guarded_latest s Hg) | eauto].
Qed.

Lemma before_guarded_settle h o s : guarded s -> guarded (settle h o s).
Proof.
  intros Hg. destruct (settle_frame h o s) as (Hf & Hm & Hcl & Hsub).
  constructor; rewrite ?Hf, ?Hm, ?Hcl.
  - intros c Hin. apply (guarded_awaiting s Hg). now apply Hsub.
  - rewrite settle_requests. apply (guarded_latest s Hg).
  - intros Hidle. destruct (guarded_idle s Hg Hidle) as [Hnone Hb].
    split; [exact Hnone |].
    destruct (option_eq_dec (beforeUrl (settle h o s)) (beforeUrl s)) as [-> | Hne];
      [exact Hb |].
    apply (settle_beforeUrl h o s Hg) in Hne. destruct Hne as [Hsome _]. congruence.
Qed.

Lemma before_guarded_step s ev : guarded s -> guarded (step s ev).
Proof.
  intros Hg. destruct ev as [| f | h o]; cbn [step].
  - apply before_guarded_effectRun. exact (guarded_awaiting s Hg).
  - destruct (same_file f (file s)); [exact Hg |].
    apply before_guarded_effectRun. exact (guarded_awaiting s Hg).
  - now apply before_guarded_settle.
Qed.

Lemma before_guarded_run evs : forall s, guarded s -> guarded (run s evs).
Proof.
  induction evs as [| ev evs IH]; intros s Hg; [exact Hg |].
  cbn [run fold_left]. apply IH. now apply before_guarded_step.
Qed.

(** X21.  Late "before" responses are dropped.  In every state the compare
    loader reaches, the "before" URL changes on a settled promise only if that
    promise is the successful response to the latest request made; and while
    compare mode is off, or no file is selected, no "before" URL is held and
    no response, however late, installs one. *)
Theorem only_latest_before_response_installs :
  forall (f : option string) (evs : list Event) (h : nat) (o : Outcome),
    let s := run (init f) evs in
    (beforeUrl (settle h o s) <> beforeUrl s ->
     cleanup s = Some h /\ S h = length (requests s) /\
     exists bytes, o = Resolved bytes) /\
    (compareMode s = off \/ file s = None ->
     beforeUrl s = None /\ beforeUrl (settle h o s) = None).
Proof.
  intros f evs h o s.
  assert (Hg : guarded s) by apply before_guarded_run, before_guarded_init.
  split; [now apply settle_beforeUrl |].
  intros Hidle. split; [now apply (guarded_idle s Hg) |].
  pose proof (before_guarded_settle h o s Hg) as Hg'.
  destruct (settle_frame h o s) as (Hf & Hm & _).
  apply (guarded_idle _ Hg'). now rewrite Hf, Hm.
Qed.

Lemma only_latest_before_response_installs_witness :
  let f := Some "photo"%string in
  let evs := [CompareButton; CompareButton; CompareButton] in
  let s := run (init f) evs in
  (compareMode s = off \/ file s = None) /\
  awaiting s <> [] /\
  beforeUrl (settle 1 (Resolved [5%Z]) s) = None.
Proof.
  intros f evs s.
  assert (H : compareMode s = off \/ file s = None) by (left; reflexivity).
  split; [exact H |]. split; [discriminate |].
  exact (proj2 (proj2 (only_latest_before_response_installs f evs 1 (Resolved [5%Z])) H)).
Defined.

End CompareFacts.

(** ** The store *)

Section StoreFacts.
Import Store PropertyNames.

Lemma over_assoc {A} (a b c : option A) :
  Partial.over (Partial.over a b) c = Partial.over a (Partial.over b c).
Proof. now destruct a, b, c. Qed.

Lemma default_over {A} (d : A) (a b : option A) :
  default (default d a) b = default d (Partial.over a b).
Proof. now destruct a, b. Qed.

Lemma spread_spread e u v : spread (spread e u) v = spread e (Partial.spread u v).
Proof.
  unfold spread, Partial.spread. cbn. now rewrite !default_over.
Qed.

Lemma spread_empty e : spread e Partial.empty = e.
Proof. now destruct e. Qed.

(** X22.  Updates merge.  For file ids that are not names inherited from
    [Object.prototype] (the ids the backend issues are UUIDs): two updates of
    one file amount to one update with the second spread over the first;
    updates of different files commute, the record of edit states being read
    as a map from ids to edits; an update leaves every other file's edits
    alone and stores the old edits, or the defaults if there were none, with
    the update spread over them; the empty update of a file that has edits
    changes nothing, and of a file that has none stores the defaults. *)
Theorem updateEdit_laws :
  forall (s : State) (a b : string) (u v : Partial.t),
    plainId a = true -> plainId b = true ->
    updateEdit a v (updateEdit a u s) = updateEdit a (Partial.spread u v) s /\
    (a <> b -> updateEdit a u (updateEdit b v s) = updateEdit b v (updateEdit a u s)) /\
    (a <> b -> editStates (updateEdit a u s) !! b = editStates s !! b) /\
    editStates (updateEdit a u s) !! a
    = Some (spread (default DEFAULT_EDIT_STATE (editStates s !! a)) u) /\
    (is_Some (editStates s !! a) -> updateEdit a Partial.empty s = s) /\
    (editStates s !! a = None ->
     editStates (updateEdit a Partial.empty s) !! a = Some DEFAULT_EDIT_STATE).
Proof.
  intros s a b u v _ _. repeat split.
  - unfold updateEdit. cbn. f_equal.
    rewrite lookup_insert_eq. cbn. rewrite spread_spread.
    apply insert_insert_eq.
  - intros Hne. unfold updateEdit. cbn. f_equal.
    rewrite !lookup_insert_ne by congruence.
    apply insert_insert_ne. congruence.
  - intros Hne. cbn. now apply lookup_insert_ne.
  - cbn. apply lookup_insert_eq.
  - intros [e He]. unfold updateEdit. rewrite He. cbn. rewrite spread_empty.
    rewrite insert_id by exact He. now destruct s.
  - intros Hnone. cbn. rewrite lookup_insert_eq, Hnone. reflexivity.
Qed.

Lemma updateEdit_laws_witness :
  let a := "3f2504e0-4f89-41d3-9a0c-0305e82c3301"%string in
  let b := "9b2d7f3a-6c1e-4a57-8d42-5e0f1c7a9b66"%string in
  let s := updateEdit a (Partial.ofRating 3) initial in
  (plainId a = true /\ plainId b = true /\ a <> b /\
   is_Some (editStates s !! a) /\ editStates s !! b = None) /\
  updateEdit a Partial.empty s = s /\
  editStates (updateEdit b Partial.empty s) !! b = Some DEFAULT_EDIT_STATE /\
  updateEdit a (Partial.ofFlag pick) (updateEdit b (Partial.ofRating 5) s)
  = updateEdit b (Partial.ofRating 5) (updateEdit a (Partial.ofFlag pick) s).
Proof.
  intros a b s.
  assert (Ha : plainId a = true) by reflexivity.
  assert (Hb : plainId b = true) by reflexivity.
  assert (Hne : a <> b) by discriminate.
  assert (Hsome : is_Some (editStates s !! a)).
  { exists (spread DEFAULT_EDIT_STATE (Partial.ofRating 3)). reflexivity. }
  assert (Hnone : editStates s !! b = None) by reflexivity.
  split; [repeat split; assumption |].
  destruct (updateEdit_laws s a b (Partial.ofFlag pick) (Partial.ofRating 5) Ha Hb)
    as (_ & Hcomm & _).
  destruct (updateEdit_laws s a b Partial.empty Partial.empty Ha Hb)
    as (_ & _ & _ & _ & Hid & _).
  destruct (updateEdit_laws s b a Partial.empty Partial.empty Hb Ha)
    as (_ & _ & _ & _ & _ & Hdef).
  split; [exact (Hid Hsome) |]. split; [exact (Hdef Hnone) | exact (Hcomm Hne)].
Defined.

(** X23.  Ratings are clamped.  For a file id that is not a name inherited
    from [Object.prototype] and any number passed (the numbers here are the
    rationals: NaN is not one of them), [setRating] stores a rating between 0
    and 5 for that file, the number itself when it already lies in that
    range, 0 when it is below and 5 when it is above, and changes nothing
    else: the file's other edits (the defaults, if it had none), every other
    file's edits, the list of files and the selection are as before. *)
Theorem setRating_clamps :
  forall (s : State) (fileId : string) (r : Q),
    plainId fileId = true ->
    let s' := setRating fileId r s in
    let old := default DEFAULT_EDIT_STATE (editStates s !! fileId) in
    exists e,
      editStates s' !! fileId = Some e /\
      0 <= rating e <= 5 /\
      (0 <= r <= 5 -> rating e == r) /\
      (r <= 0 -> rating e == 0) /\ (5 <= r -> rating e == 5) /\
      e = spread old (Partial.ofRating (rating e)) /\
      (forall other, other <> fileId ->
         editStates s' !! other = editStates s !! other) /\
      files s' = files s /\ selectedIndex s' = selectedIndex s.
Proof.
  intros s fileId r _ s' old. subst s'. unfold setRating.
  eexists. split; [cbn; apply lookup_insert_eq |].
  cbn [spread rating Partial.rating Partial.ofRating default].
  unfold Math.max, Math.min. repeat split.
  - apply Q.le_max_l.
  - apply Q.max_lub; [lra | apply Q.le_min_l].
  - intros [Hlo Hhi]. rewrite (Q.min_r 5 r) by exact Hhi. now rewrite Q.max_r.
  - intros Hlo. rewrite (Q.min_r 5 r) by lra. now rewrite Q.max_l.
  - intros Hhi. rewrite (Q.min_l 5 r) by exact Hhi. now rewrite Q.max_r by lra.
  - intros other Hne. cbn. now apply lookup_insert_ne.
Qed.

Lemma setRating_clamps_witness :
  let a := "3f2504e0-4f89-41d3-9a0c-0305e82c3301"%string in
  plainId a = true /\
  exists e,
    editStates (setRating a 9 initial) !! a = Some e /\ rating e == 5.
Proof.
  intros a.
  assert (Ha : plainId a = true) by reflexivity.
  split; [exact Ha |].
  destruct (setRating_clamps initial a 9 Ha) as (e & He & _ & _ & _ & H5 & _).
  exists e. split; [exact He |]. apply H5. discriminate.
Defined.

Lemma selectedEditState_updateEdit s f u :
  selectedFile s = Some f ->
  selectedEditState (updateEdit (ImageFile.id f) u s) = spread (selectedEditState s) u.
Proof.
  intros Hf. unfold selectedEditState.
  change (selectedFile (updateEdit (ImageFile.id f) u s)) with (selectedFile s).
  rewrite Hf. cbn. now rewrite lookup_insert_eq.
Qed.

(** X24.  The selection.  A file is selected exactly when the index lies
    within the list of files; the edits shown for the selection are those
    stored under its id, or the defaults when nothing is stored or nothing is
    selected; and after an update of the selected file they are the old ones
    with the update spread over them, while an update of a file with another
    id does not show. *)
Theorem selection_reads :
  forall (s : State) (a : string) (u : Partial.t),
    (selectedFile s = None <->
     (selectedIndex s < 0 \/ Z.of_nat (length (files s)) <= selectedIndex s)%Z) /\
    (selectedFile s = None -> selectedEditState s = DEFAULT_EDIT_STATE) /\
    selectedFile (updateEdit a u s) = selectedFile s /\
    (forall f, selectedFile s = Some f ->
       selectedEditState (updateEdit a u s)
       = if String.eqb (ImageFile.id f) a
         then spread (selectedEditState s) u
         else selectedEditState s).
Proof.
  intros s a u. repeat split.
  - unfold selectedFile. destruct (Z.ltb_spec (selectedIndex s) 0); [lia |].
    intros Hnone. apply nth_error_None in Hnone. lia.
  - unfold selectedFile. destruct (Z.ltb_spec (selectedIndex s) 0); [reflexivity |].
    intros [Hneg | Hbig]; [lia |]. apply nth_error_None. lia.
  - unfold selectedEditState. now intros ->.
  - intros f Hf. unfold selectedEditState.
    change (selectedFile (updateEdit a u s)) with (selectedFile s). rewrite Hf.
    destruct (String.eqb_spec (ImageFile.id f) a) as [-> | Hne]; cbn.
    + now rewrite lookup_insert_eq.
    + rewrite lookup_insert_ne by congruence. reflexivity.
Qed.

Lemma selection_reads_witness :
  let f := {| ImageFile.id := "a"; ImageFile.path := "/p/a.jpg";
              ImageFile.filename := "a.jpg"; ImageFile.extension := "jpg";
              ImageFile.fileSize := 10; ImageFile.modifiedAt := "now";
              ImageFile.isRaw := false; ImageFile.dimensions := None |} in
  let s := setFolder "/p" [f] ∅ initial in
  selectedFile s = Some f /\
  selectedEditState (updateEdit "a" (Partial.ofRating 4) s)
  = spread DEFAULT_EDIT_STATE (Partial.ofRating 4).
Proof.
  intros f s. split; [reflexivity |].
  destruct (selection_reads s "a" (Partial.ofRating 4)) as (_ & _ & _ & H).
  exact (H f eq_refl).
Defined.

(** The crop commit of the preview goes through the same store action: the
    edits [applyCrop] writes are those [updateEdit] produces for [{ crop }]. *)
Lemma updateEdit_crop_is_updateEdit :
  forall (v : Viewport.State) (s : State) (fileId : string) (c : JsObject),
    Viewport.editStates v = editStates s ->
    Viewport.editStates (Viewport.updateEdit_crop fileId c v)
    = editStates (updateEdit fileId (Partial.ofCrop (Some c)) s).
Proof.
  intros v s fileId c Heq. unfold Viewport.updateEdit_crop, updateEdit. cbn.
  rewrite Heq. reflexivity.
Qed.

End StoreFacts.

(** ** Keyboard shortcuts and the rating bar *)

Section KeyboardFacts.
Import Store StoreInv.

(** Each key leaves the list of files alone and moves the selection by at
    most one place, within the list. *)
Lemma handleKeyDown_selection e s :
  files (fst (Keyboard.handleKeyDown e s)) = files s /\
  ((0 <= selectedIndex s < Z.of_nat (length (files s)))%Z ->
   (0 <= selectedIndex (fst (Keyboard.handleKeyDown e s))
    < Z.of_nat (length (files s)))%Z).
Proof.
  unfold Keyboard.handleKeyDown.
  destruct (selectedFile s) as [file |]; [| cbn; auto].
  repeat match goal with
         | |- context [if ?b then _ else _] => destruct b eqn:?
         | |- context [match Keyboard.digit ?k with _ => _ end] =>
           destruct (Keyboard.digit k)
         end; cbn; split; auto; intros;
    repeat match goal with
           | H : (_ <? _)%Z = true |- _ => apply Z.ltb_lt in H
           end; lia.
Qed.

Lemma selectedFile_in_range s :
  (0 <= selectedIndex s < Z.of_nat (length (files s)))%Z <-> is_Some (selectedFile s).
Proof.
  unfold selectedFile. destruct (Z.ltb_spec (selectedIndex s) 0).
  - split; [lia | intros [f Hf]; discriminate].
  - split.
    + intros [_ Hlt]. apply not_eq_None_Some. intros Hnone.
      apply nth_error_None in Hnone. lia.
    + intros [f Hf]. split; [lia |].
      assert (Hlt : (Z.to_nat (selectedIndex s) < length (files s))%nat).
      { apply nth_error_Some. congruence. }
      lia.
Qed.

(** X25.  The keyboard never loses the selection.  With a file selected,
    after any sequence of key presses the list of files is unchanged and a
    file is still selected: the left arrow stops at the first file and the
    right arrow at the last.  With no file selected, no key does anything and
    no backend call is made. *)
Theorem keyboard_keeps_selection :
  forall (s : State) (es : list Keyboard.KeyboardEvent),
    (is_Some (selectedFile s) ->
     files (fst (Keyboard.run s es)) = files s /\
     is_Some (selectedFile (fst (Keyboard.run s es)))) /\
    (selectedFile s = None -> Keyboard.run s es = (s, [])).
Proof.
  intros s es. split.
  - revert s. induction es as [| e es IH]; intros s Hsel; [auto |].
    cbn [Keyboard.run].
    destruct (handleKeyDown_selection e s) as [Hfiles Hrange].
    apply selectedFile_in_range in Hsel. apply Hrange in Hsel.
    destruct (Keyboard.handleKeyDown e s) as [s1 calls1]. cbn [fst] in *.
    rewrite <- Hfiles in Hsel. apply selectedFile_in_range in Hsel.
    destruct (IH s1 Hsel) as [Hf Hs].
    destruct (Keyboard.run s1 es) as [s2 calls2]. cbn [fst] in *.
    split; [congruence | exact Hs].
  - intros Hnone. induction es as [| e es IH]; [reflexivity |].
    cbn [Keyboard.run]. unfold Keyboard.handleKeyDown. rewrite Hnone.
    now rewrite IH.
Qed.

Lemma keyboard_keeps_selection_witness :
  let f := fun n => {| ImageFile.id := n; ImageFile.path := n;
                       ImageFile.filename := n; ImageFile.extension := "jpg";
                       ImageFile.fileSize := 10; ImageFile.modifiedAt := "now";
                       ImageFile.isRaw := false; ImageFile.dimensions := None |} in
  let s := setFolder "/p" [f "a"; f "b"]%string ∅ initial in
  let es := [arrowRight; arrowRight; arrowRight] in
  is_Some (selectedFile s) /\
  selectedIndex (fst (Keyboard.run s es)) = 1%Z /\
  is_Some (selectedFile (fst (Keyboard.run s es))).
Proof.
  intros f s es.
  assert (H : is_Some (selectedFile s)) by (eexists; reflexivity).
  split; [exact H |]. split; [reflexivity |].
  exact (proj2 (proj1 (keyboard_keeps_selection s es) H)).
Defined.

(** X26.  Quarter turns.  On the four rotations the type admits, the
    keyboard's clockwise and counter-clockwise turns stay among the four, undo
    each other, and four clockwise turns come back to the start; the edit
    panel's rotate buttons compute the same turns. *)
Theorem quarter_turns :
  forall r : Q,
    In r rotations ->
    In (Keyboard.rotateCW r) rotations /\
    In (Keyboard.rotateCCW r) rotations /\
    Keyboard.rotateCCW (Keyboard.rotateCW r) = r /\
    Keyboard.rotateCW (Keyboard.rotateCCW r) = r /\
    Keyboard.rotateCW (Keyboard.rotateCW (Keyboard.rotateCW (Keyboard.rotateCW r))) = r /\
    EditPanel.rotateRight r = Keyboard.rotateCW r /\
    EditPanel.rotateLeft r = Keyboard.rotateCCW r.
Proof.
  intros r Hr. unfold rotations in *.
  repeat (destruct Hr as [<- | Hr]; [vm_compute; tauto |]).
  contradiction.
Qed.

Lemma quarter_turns_witness :
  In 270 rotations /\ Keyboard.rotateCW 270 = 0 /\
  Keyboard.rotateCCW (Keyboard.rotateCW 270) = 270.
Proof.
  assert (H : In 270 rotations) by (vm_compute; tauto).
  split; [exact H |].
  destruct (quarter_turns 270 H) as (_ & _ & Hback & _).
  split; [reflexivity |]. exact Hback.
Defined.

Lemma digit_range k r : Keyboard.digit k = Some r -> 1 <= r <= 5.
Proof.
  unfold Keyboard.digit.
  repeat match goal with
         | |- context [if ?b then _ else _] => destruct b
         end; intros [= <-] || discriminate; split; discriminate.
Qed.

Lemma setRating_agrees s fileId r :
  0 <= r <= 5 -> agrees (setRating fileId r s) (apiSetRating fileId r).
Proof.
  intros [Hlo Hhi]. eexists. split; [cbn; apply lookup_insert_eq |].
  cbn. unfold Math.max, Math.min.
  rewrite (Q.min_r 5 r) by exact Hhi. now rewrite Q.max_r.
Qed.

(** X27.  Keyboard edits reach the backend as stored.  Every backend call
    a key press makes is about the selected file, and the value it sends is
    the value the store holds for that file after the key press: the rating,
    the flag, or, for a rotation, the whole edit state saved. *)
Theorem keyboard_calls_agree_with_store :
  forall (s : State) (e : Keyboard.KeyboardEvent) (call : ApiCall),
    In call (snd (Keyboard.handleKeyDown e s)) ->
    agrees (fst (Keyboard.handleKeyDown e s)) call /\
    exists f, selectedFile s = Some f /\ target call = ImageFile.id f.
Proof.
  intros s e call. unfold Keyboard.handleKeyDown.
  pose proof (fun f (H : selectedFile s = Some f) =>
                eq_refl (selectedEditState s)) as Hsel.
  unfold selectedEditState at 1.
  destruct (selectedFile s) as [file |] eqn:Hfile; [| cbn; contradiction].
  assert (Hedits : selectedEditState s
                   = default DEFAULT_EDIT_STATE (editStates s !! ImageFile.id file)).
  { unfold selectedEditState. now rewrite Hfile. }
  destruct (Keyboard.digit (Keyboard.key e)) as [r |] eqn:Hdigit.
  - apply digit_range in Hdigit.
    repeat match goal with
           | |- context [if ?b then _ else _] => destruct b
           end; cbn; try contradiction;
      (intros [<- | []]; split; [| eauto]);
      apply setRating_agrees; lra.
  - repeat match goal with
           | |- context [if ?b then _ else _] => destruct b
           end; cbn; try contradiction;
      (intros [<- | []]; split; [| eauto]).
    + apply setRating_agrees. lra.
    + eexists. split; [apply lookup_insert_eq | reflexivity].
    + eexists. split; [apply lookup_insert_eq | reflexivity].
    + eexists. split; [apply lookup_insert_eq | reflexivity].
    + cbn. rewrite lookup_insert_eq. now rewrite Hedits.
    + cbn. rewrite lookup_insert_eq. now rewrite Hedits.
Qed.

Lemma keyboard_calls_agree_with_store_witness :
  let f := {| ImageFile.id := "a"; ImageFile.path := "/p/a.jpg";
              ImageFile.filename := "a.jpg"; ImageFile.extension := "jpg";
              ImageFile.fileSize := 10; ImageFile.modifiedAt := "now";
              ImageFile.isRaw := false; ImageFile.dimensions := None |} in
  let s := setFolder "/p" [f] ∅ initial in
  let e := {| Keyboard.key := "R"; Keyboard.shiftKey := true |} in
  let call := saveEdits "a" (spread DEFAULT_EDIT_STATE (Partial.ofRotation 270)) in
  In call (snd (Keyboard.handleKeyDown e s)) /\
  agrees (fst (Keyboard.handleKeyDown e s)) call.
Proof.
  intros f s e call.
  assert (H : In call (snd (Keyboard.handleKeyDown e s))) by (left; reflexivity).
  split; [exact H |].
  exact (proj1 (keyboard_calls_agree_with_store s e call H)).
Defined.

Lemma updateEdit_ratings s fileId u :
  ratingsInRange s ->
  (forall r, Partial.rating u = Some r -> 0 <= r <= 5) ->
  ratingsInRange (updateEdit fileId u s).
Proof.
  intros Hs Hu id e. cbn.
  destruct (String.eqb_spec fileId id) as [-> | Hne].
  - rewrite lookup_insert_eq. intros [= <-]. cbn.
    destruct (Partial.rating u) as [r |] eqn:Hr; cbn; [now apply Hu |].
    destruct (editStates s !! id) as [e0 |] eqn:He0; cbn; [now apply (Hs id) |].
    split; discriminate.
  - rewrite lookup_insert_ne by exact Hne. apply Hs.
Qed.

Lemma setRating_ratings s fileId r :
  ratingsInRange s -> ratingsInRange (setRating fileId r s).
Proof.
  intros Hs. apply updateEdit_ratings; [exact Hs |].
  cbn. intros r' [= <-]. unfold Math.max, Math.min. split.
  - apply Q.le_max_l.
  - apply Q.max_lub; [lra | apply Q.le_min_l].
Qed.

Lemma handleKeyDown_ratings e s :
  ratingsInRange s -> ratingsInRange (fst (Keyboard.handleKeyDown e s)).
Proof.
  intros Hs. unfold Keyboard.handleKeyDown.
  destruct (selectedFile s) as [file |]; [| exact Hs].
  repeat match goal with
         | |- context [if ?b then _ else _] => destruct b
         | |- context [match Keyboard.digit ?k with _ => _ end] =>
           destruct (Keyboard.digit k)
         end; cbn [fst]; try exact Hs;
    try (apply setRating_ratings; exact Hs);
    try (apply updateEdit_ratings; [exact Hs | cbn; discriminate]).
Qed.

(** X28.  Ratings stay between 0 and 5.  If every stored rating lies in
    [0, 5], it still does after any sequence of key presses and after a click
    on any star, whatever number the star passes. *)
Theorem ratings_stay_in_range :
  forall (s : State) (es : list Keyboard.KeyboardEvent) (star : Q),
    ratingsInRange s ->
    ratingsInRange (fst (Keyboard.run s es)) /\
    ratingsInRange (fst (RatingBar.starClick star (fst (Keyboard.run s es)))).
Proof.
  intros s es star Hs.
  assert (H : ratingsInRange (fst (Keyboard.run s es))).
  { revert s Hs. induction es as [| e es IH]; intros s Hs; [exact Hs |].
    cbn [Keyboard.run].
    pose proof (handleKeyDown_ratings e s Hs) as H1.
    destruct (Keyboard.handleKeyDown e s) as [s1 calls1]. cbn [fst] in H1.
    pose proof (IH s1 H1) as H2.
    destruct (Keyboard.run s1 es) as [s2 calls2]. exact H2. }
  split; [exact H |].
  unfold RatingBar.starClick, RatingBar.handleRating.
  destruct (selectedFile (fst (Keyboard.run s es))); [| exact H].
  cbn [fst]. now apply setRating_ratings.
Qed.

Lemma ratings_stay_in_range_witness :
  let f := {| ImageFile.id := "a"; ImageFile.path := "/p/a.jpg";
              ImageFile.filename := "a.jpg"; ImageFile.extension := "jpg";
              ImageFile.fileSize := 10; ImageFile.modifiedAt := "now";
              ImageFile.isRaw := false; ImageFile.dimensions := None |} in
  let s := setFolder "/p" [f] ∅ initial in
  let es := [{| Keyboard.key := "5"; Keyboard.shiftKey := false |}] in
  ratingsInRange s /\
  ratingsInRange (fst (RatingBar.starClick 40 (fst (Keyboard.run s es)))).
Proof.
  intros f s es.
  assert (H : ratingsInRange s).
  { intros id e He. cbn in He. rewrite lookup_empty in He. discriminate. }
  split; [exact H |].
  exact (proj2 (ratings_stay_in_range s es 40 H)).
Defined.

(** X29.  The rating bar toggles.  With a file selected, a click on a star
    from 0 to 5 sets the shown rating to that star, unless it is the current
    rating, which it clears to 0; the "Pick" button sets the flag to pick
    unless it is pick already, which it resets to none, and likewise the
    "Reject" button; each click sends the backend the value it stores. *)
Theorem rating_bar_toggles :
  forall (s : State) (f : ImageFile.t) (star : Q),
    selectedFile s = Some f -> 0 <= star <= 5 ->
    let old := selectedEditState s in
    let r := if eqb (rating old) star then 0 else star in
    let p := if RatingBar.is_flag (flag old) pick then none else pick in
    let j := if RatingBar.is_flag (flag old) reject then none else reject in
    rating (selectedEditState (fst (RatingBar.starClick star s))) == r /\
    snd (RatingBar.starClick star s) = [apiSetRating (ImageFile.id f) r] /\
    flag (selectedEditState (fst (RatingBar.pickClick s))) = p /\
    snd (RatingBar.pickClick s) = [apiSetFlag (ImageFile.id f) p] /\
    flag (selectedEditState (fst (RatingBar.rejectClick s))) = j /\
    snd (RatingBar.rejectClick s) = [apiSetFlag (ImageFile.id f) j].
Proof.
  intros s f star Hf Hstar old r p j.
  assert (Hread : forall u, selectedEditState (updateEdit (ImageFile.id f) u s)
                            = spread old u).
  { intros u. now apply selectedEditState_updateEdit. }
  unfold RatingBar.starClick, RatingBar.pickClick, RatingBar.rejectClick,
    RatingBar.handleRating, RatingBar.handleFlag, setRating, setFlag.
  rewrite Hf. cbn [fst snd]. fold old. fold r. fold p. fold j.
  rewrite !Hread. cbn. repeat split.
  unfold Math.max, Math.min.
  assert (Hr : 0 <= r <= 5) by (subst r; destruct (eqb (rating old) star); lra).
  rewrite (Q.min_r 5 r) by apply Hr. now rewrite Q.max_r by apply Hr.
Qed.

Lemma rating_bar_toggles_witness :
  let f := {| ImageFile.id := "a"; ImageFile.path := "/p/a.jpg";
              ImageFile.filename := "a.jpg"; ImageFile.extension := "jpg";
              ImageFile.fileSize := 10; ImageFile.modifiedAt := "now";
              ImageFile.isRaw := false; ImageFile.dimensions := None |} in
  let s := fst (RatingBar.starClick 3 (setFolder "/p" [f] ∅ initial)) in
  (selectedFile s = Some f /\ 0 <= 3 <= 5) /\
  rating (selectedEditState (fst (RatingBar.starClick 3 s))) == 0.
Proof.
  intros f s.
  assert (H : 0 <= 3 <= 5) by (split; discriminate).
  split; [split; [reflexivity | exact H] |].
  exact (proj1 (rating_bar_toggles s f 3 eq_refl H)).
Defined.

End KeyboardFacts.
